(** * JuliaSets: escape-time evaluation and the column-striped fill

    A shallow embedding of the core of the JuliaSets program
    (HelperFunctions.c, JuliaSet.c, Drawing.c/.h and Project04_01.c), and
    the properties its specification states about it.

    Conventions of the embedding.
    - C [int] and [long] values are integers of [Z].  A loop counter of type
      [int] that is stepped beyond the range of [int] has no defined value in
      C: the loop then has no result.  The conversion [(int)] of a [long] is
      the reduction into the range of [int] of gcc and clang.
    - C [double] arithmetic is reached through the interface [Double].  The
      program runs on the instance [binary64] (IEEE 754 double precision,
      round to nearest even, as the kernel's primitive floats); the instance
      [exact] reads the same code over the real numbers.
    - [double complex] is a pair (real part, imaginary part).
    - The [int *stageEliminated] out-parameter is a cell that also counts the
      stores made through it.
    - A worker's effect on the shared colour map is the sequence of stores it
      performs; the threads of [main] are an interleaving of these sequences.
    - The conversions [strtol] and [strtod] of the C library are parameters
      of [getArgs] and [main].
    - The SDL library is what it answers and the events it delivers, given
      with the surroundings of [main], and the calls made on the renderer,
      which [drawJuliaSet] and [main] return in order.  A cell of the colour
      map that was never stored to has no defined content. *)

From Stdlib Require Import Ascii String.
From Stdlib Require Import ZArith Lia Bool List Floats Reals Lra.
From stdpp Require Import base tactics option list gmap.

Set Warnings "-inexact-float".
Local Open Scope Z_scope.

(** ** The arithmetic of [double] *)

Declare Scope dbl_scope.
Delimit Scope dbl_scope with dbl.

Class Double (D : Type) := {
  of_int : Z -> D;          (* the conversion (double)k *)
  lit_half : D;             (* the literal 0.5 *)
  lit_two : D;              (* the literal 2.0 *)
  dadd : D -> D -> D;
  dsub : D -> D -> D;
  dmul : D -> D -> D;
  ddiv : D -> D -> D;
  dsqrt : D -> D;           (* sqrt() of math.h *)
  dgt : D -> D -> bool;     (* x > y *)
  deq : D -> D -> bool      (* x == y *)
}.

Infix "+" := dadd : dbl_scope.
Infix "-" := dsub : dbl_scope.
Infix "*" := dmul : dbl_scope.
Infix "/" := ddiv : dbl_scope.
Infix ">?" := dgt (at level 70) : dbl_scope.
Infix "==?" := deq (at level 70) : dbl_scope.

(** The double nearest to an integer (ties to even): what a conversion from
    [int] or [long] yields. *)
Definition float_of_Z (k : Z) : float :=
  SF2Prim (binary_normalize prec emax k 0 false).

#[export] Instance binary64 : Double float := {|
  of_int := float_of_Z;
  lit_half := 0.5%float;
  lit_two := 2%float;
  dadd := PrimFloat.add;
  dsub := PrimFloat.sub;
  dmul := PrimFloat.mul;
  ddiv := PrimFloat.div;
  dsqrt := PrimFloat.sqrt;
  dgt := fun x y => PrimFloat.ltb y x;
  deq := PrimFloat.eqb
|}.

Definition Rgtb (x y : R) : bool := if Rlt_dec y x then true else false.
Definition Reqb (x y : R) : bool := if Req_dec_T x y then true else false.

Definition exact : Double R := {|
  of_int := IZR;
  lit_half := (/ 2)%R;
  lit_two := 2%R;
  dadd := Rplus;
  dsub := Rminus;
  dmul := Rmult;
  ddiv := Rdiv;
  dsqrt := R_sqrt.sqrt;
  dgt := Rgtb;
  deq := Reqb
|}.

(** ** HelperFunctions.c: the coordinate mapper *)

Section CoordinateMapper.
Context {D : Type} {ops : Double D}.
Local Open Scope dbl_scope.

(** [planeWidth * (((double)x / (double)windowWidth) - 0.5) + centerX] *)
Definition XTransform (x : Z) (centerX planeWidth : D) (windowWidth : Z) : D :=
  planeWidth * ((of_int x / of_int windowWidth) - lit_half) + centerX.

(** [planeHeight * (0.5 - ((double)y / (double)windowHeight)) + centerY] *)
Definition YTransform (y : Z) (centerY planeHeight : D) (windowHeight : Z) : D :=
  planeHeight * (lit_half - (of_int y / of_int windowHeight)) + centerY.

End CoordinateMapper.

(** ** JuliaSet.c: the escape-time evaluator *)

(** The cell behind [int *stageEliminated]: the value it holds and the number
    of stores made through the pointer. *)
Record int_buffer := { held : Z; stores : nat }.

Definition store (v : Z) (b : int_buffer) : int_buffer :=
  {| held := v; stores := S (stores b) |}.

Section Evaluator.
Context {D : Type} {ops : Double D}.
Local Open Scope dbl_scope.

Definition complex : Type := D * D.
Definition creal (z : complex) : D := fst z.
Definition cimag (z : complex) : D := snd z.

(** [_Complex_I] *)
Definition Complex_I : complex := (of_int 0, of_int 1).

(** Complex product and sum, and the mixed real/complex forms, which C
    evaluates part by part.  The product is the formula of C99; the run-time
    library recomputes a product only when both parts of this formula are
    NaN, to recover an infinite operand. *)
Definition cmul (z w : complex) : complex :=
  (creal z * creal w - cimag z * cimag w, creal z * cimag w + cimag z * creal w).
Definition cadd (z w : complex) : complex :=
  (creal z + creal w, cimag z + cimag w).
Definition rmul (r : D) (z : complex) : complex := (r * creal z, r * cimag z).
Definition radd (r : D) (z : complex) : complex := (r + creal z, cimag z).
(** [z == w] on complex values: both parts compare equal *)
Definition ceq (z w : complex) : bool := (creal z ==? creal w) && (cimag z ==? cimag w).

Definition f (z C : complex) : complex := cadd (cmul z z) C.

Definition distanceFromOrigin (z : complex) : D :=
  dsqrt ((creal z * creal z) + (cimag z * cimag z)).

(** The [for (int i = 0; i < numIterations; i++)] loop of [isInJuliaSet],
    entered at counter [i] with [remaining = numIterations - i] passes left. *)
Fixpoint isInJuliaSet_loop (remaining : nat) (i : Z) (C prevZ currentZ : complex)
    (stageEliminated : int_buffer) : bool * int_buffer :=
  match remaining with
  | O => (true, stageEliminated)
  | S remaining' =>
      let currentZ := f currentZ C in
      if distanceFromOrigin currentZ >? lit_two then
        (false, store i stageEliminated)
      else if ceq currentZ prevZ then
        (true, stageEliminated)
      else
        isInJuliaSet_loop remaining' (i + 1) C currentZ currentZ stageEliminated
  end.

Definition isInJuliaSet (z C : complex) (numIterations : Z)
    (stageEliminated : int_buffer) : bool * int_buffer :=
  isInJuliaSet_loop (Z.to_nat numIterations) 0 C z z stageEliminated.

(** The same loop with the [currentZ == prevZ] exit taken out: the plain
    escape-time test the fixed-point exit is compared with. *)
Fixpoint escapeTime_loop (remaining : nat) (i : Z) (C currentZ : complex)
    (stageEliminated : int_buffer) : bool * int_buffer :=
  match remaining with
  | O => (true, stageEliminated)
  | S remaining' =>
      let currentZ := f currentZ C in
      if distanceFromOrigin currentZ >? lit_two then
        (false, store i stageEliminated)
      else
        escapeTime_loop remaining' (i + 1) C currentZ stageEliminated
  end.

Definition escapeTime (z C : complex) (numIterations : Z)
    (stageEliminated : int_buffer) : bool * int_buffer :=
  escapeTime_loop (Z.to_nat numIterations) 0 C z stageEliminated.

(** The orbit of the point [z]: [orbit z C k] is [currentZ] after [k] passes. *)
Fixpoint orbit (z C : complex) (k : nat) : complex :=
  match k with
  | O => z
  | S k' => f (orbit z C k') C
  end.

(** Pass [k] (counted from 0) sees the distance exceed 2.0. *)
Definition escapes (z C : complex) (k : nat) : bool :=
  distanceFromOrigin (orbit z C (S k)) >? lit_two.

(** Pass [k] leaves [currentZ] equal to its value before the pass. *)
Definition repeats (z C : complex) (k : nat) : bool :=
  ceq (orbit z C (S k)) (orbit z C k).

(** No pass before [k] escapes or repeats: pass [k] is reached. *)
Definition reaches (z C : complex) (k : nat) : bool :=
  forallb (fun j => negb (escapes z C j) && negb (repeats z C j)) (seq 0 k).

End Evaluator.

(** ** Drawing.h, Drawing.c: the colour policy *)

Module SDL.
(** [SDL_Color]: four [Uint8] channels. *)
Record Color := mkColor { r : Z; g : Z; b : Z; a : Z }.
End SDL.
Abbreviation SDL_Color := SDL.Color.

Definition RED_IN_SET : Z := 0.
Definition GREEN_IN_SET : Z := 0.
Definition BLUE_IN_SET : Z := 0.
Definition OPACITY_IN_SET : Z := 255.

Definition RED_OUTOF_SET : Z := 10.
Definition GREEN_OUTOF_SET : Z := 10.
Definition BLUE_OUTOF_SET : Z := 30.
Definition OPACITY_OUTOF_SET : Z := 255.

Definition RED_DELTA : float := 1.6%float.
Definition GREEN_DELTA : float := 0.8%float.
Definition BLUE_DELTA : float := 1.4%float.
Definition OPACITY_DELTA : Z := 0.

(** The integral part of a double (the fraction is discarded). *)
Definition integral_part (v : float) : Z :=
  match Prim2SF v with
  | S754_finite s m e =>
      let n := if 0 <=? e then Z.pos m * 2 ^ e else Z.pos m / 2 ^ (- e) in
      if s then - n else n
  | _ => 0
  end.

(** Storing into a [Uint8] channel.  An [int] is reduced modulo 256.  A
    [double] loses its fraction; C defines the result when the integral part
    is one of 0..255, and beyond that the model keeps the low eight bits. *)
Definition Uint8_of_int (k : Z) : Z := k mod 256.
Definition Uint8_of_double (v : float) : Z := integral_part v mod 256.

Definition colorInSet : SDL_Color :=
  {| SDL.r := Uint8_of_int RED_IN_SET;
     SDL.g := Uint8_of_int GREEN_IN_SET;
     SDL.b := Uint8_of_int BLUE_IN_SET;
     SDL.a := Uint8_of_int OPACITY_IN_SET |}.

(** The value each channel expression of [colorOutOfSet] has before it is
    stored: red, green and blue are computed in [double], opacity in [int]. *)
Definition red_value (stageEliminated : Z) : float :=
  (of_int RED_OUTOF_SET + (RED_DELTA * of_int stageEliminated))%dbl.
Definition green_value (stageEliminated : Z) : float :=
  (of_int GREEN_OUTOF_SET + (GREEN_DELTA * of_int stageEliminated))%dbl.
Definition blue_value (stageEliminated : Z) : float :=
  (of_int BLUE_OUTOF_SET + (BLUE_DELTA * of_int stageEliminated))%dbl.
Definition opacity_value (stageEliminated : Z) : Z :=
  OPACITY_OUTOF_SET + (OPACITY_DELTA * stageEliminated).

Definition colorOutOfSet (stageEliminated : Z) : SDL_Color :=
  {| SDL.r := Uint8_of_double (red_value stageEliminated);
     SDL.g := Uint8_of_double (green_value stageEliminated);
     SDL.b := Uint8_of_double (blue_value stageEliminated);
     SDL.a := Uint8_of_int (opacity_value stageEliminated) |}.

(** ** JuliaSet.c: the fill *)

(** The assignment [colorMap[x][y] = colour]. *)
Record write := Write { at_x : Z; at_y : Z; colour : SDL_Color }.

Definition cell (w : write) : Z * Z := (at_x w, at_y w).

(** What a running [fillJuliaSet] carries: its local [stageEliminated] and the
    assignments to [colorMap] it has made so far, oldest first. *)
Record fill_state := { stageEliminated : int_buffer; stored : list write }.

(** The range of [int], and the conversion [(int)k] of a [long]. *)
Definition INT_MIN : Z := -2147483648.
Definition INT_MAX : Z := 2147483647.

Definition cast_int (k : Z) : Z := (k - INT_MIN) mod 2 ^ 32 + INT_MIN.

(** [for (int v = init; v < bound; v += step) body], run for at most [fuel]
    evaluations of the loop test; [None] when they do not suffice, when the
    body has no result, and when the step takes the counter out of the
    range of [int], which C leaves undefined. *)
Fixpoint for_lt {St : Type} (fuel : nat) (v bound step : Z)
    (body : Z -> St -> option St) (s : St) : option St :=
  match fuel with
  | O => None
  | S fuel' =>
      if v <? bound then
        match body v s with
        | Some s' =>
            if (INT_MIN <=? v + step) && (v + step <=? INT_MAX)
            then for_lt fuel' (v + step) bound step body s'
            else None
        | None => None
        end
      else Some s
  end.

(** The body of the inner loop of [fillJuliaSet]. *)
Definition fill_pixel (centerX centerY planeWidth planeHeight : float)
    (windowWidth windowHeight numIterations : Z) (C : complex)
    (x y : Z) (s : fill_state) : fill_state :=
  let compX := XTransform x centerX planeWidth windowWidth in
  let compY := YTransform y centerY planeHeight windowHeight in
  let z := radd compX (rmul compY Complex_I) in
  let '(inSet, stage) := isInJuliaSet z C numIterations (stageEliminated s) in
  if inSet then
    {| stageEliminated := stage;
       stored := stored s ++ [Write x y colorInSet] |}
  else
    {| stageEliminated := stage;
       stored := stored s ++ [Write x y (colorOutOfSet (held stage))] |}.

Definition fillJuliaSet (fuel : nat) (centerX centerY planeWidth planeHeight : float)
    (windowWidth windowHeight numIterations : Z) (C : complex)
    (numberOfThreads threadID : Z) : option fill_state :=
  for_lt fuel threadID windowWidth numberOfThreads
    (fun x =>
       for_lt fuel 0 windowHeight 1
         (fun y s =>
            Some (fill_pixel centerX centerY planeWidth planeHeight
                    windowWidth windowHeight numIterations C x y s)))
    {| stageEliminated := {| held := -1; stores := 0 |}; stored := [] |}.

(** ** HelperFunctions.h, Project04_01.c: the workers *)

Definition NUM_ITERATIONS : Z := 100.

Record ThreadData := {
  d_centerX : float; d_centerY : float; d_planeWidth : float; d_planeHeight : float;
  d_C : @complex float;
  d_windowWidth : Z; d_windowHeight : Z;
  d_threadID : Z; d_numberOfThreads : Z; d_numIterations : Z
}.

(** [partialFill]: the thread function; its effect is the stores of the fill. *)
Definition partialFill (fuel : nat) (d : ThreadData) : option (list write) :=
  stored <$>
  fillJuliaSet fuel (d_centerX d) (d_centerY d) (d_planeWidth d) (d_planeHeight d)
    (d_windowWidth d) (d_windowHeight d) (d_numIterations d) (d_C d)
    (d_numberOfThreads d) (d_threadID d).

(** The data packets [main] prepares, one per [threadID] below
    [numberOfThreads]; [main] itself passes [NUM_ITERATIONS] for
    [numIterations]. *)
Definition dataList (fuel : nat) (centerX centerY planeWidth planeHeight : float)
    (windowWidth windowHeight numIterations : Z) (C : complex)
    (numberOfThreads : Z) : option (list ThreadData) :=
  for_lt fuel 0 numberOfThreads 1
    (fun threadID data =>
       Some (data ++
             [{| d_centerX := centerX; d_centerY := centerY;
                 d_planeWidth := planeWidth; d_planeHeight := planeHeight;
                 d_C := C; d_windowWidth := windowWidth;
                 d_windowHeight := windowHeight;
                 d_threadID := threadID;
                 d_numberOfThreads := cast_int numberOfThreads;
                 d_numIterations := numIterations |}]))
    [].

(** The stores of every thread, in the order of [threadList]: the loops
    that create and join the threads count as the loop of [dataList]
    does. *)
Definition threadList (fuel : nat) (data : list ThreadData) : option (list (list write)) :=
  mapM (partialFill fuel) data.

(** Threads run unsynchronised until they are joined: the stores reach the
    colour map in some interleaving of the threads' own sequences. *)
Inductive interleaving {A : Type} : list (list A) -> list A -> Prop :=
  | interleaving_done (threads : list (list A)) :
      Forall (fun t => t = []) threads -> interleaving threads []
  | interleaving_step (threads : list (list A)) (i : nat) (a : A) (t out : list A) :
      threads !! i = Some (a :: t) ->
      interleaving (<[i := t]> threads) out ->
      interleaving threads (a :: out).

(** The colour map, and the effect of a sequence of stores on it. *)
Definition perform (colorMap : gmap (Z * Z) SDL_Color) (w : write) : gmap (Z * Z) SDL_Color :=
  <[cell w := colour w]> colorMap.

Definition performAll (colorMap : gmap (Z * Z) SDL_Color) (ws : list write) :
    gmap (Z * Z) SDL_Color :=
  foldl perform colorMap ws.

(** How often a sequence of stores assigns to [colorMap[x][y]]. *)
Definition writes_at (x y : Z) (ws : list write) : nat :=
  length (filter (fun w => cell w = (x, y)) ws).

(** ** HelperFunctions.c: the command line *)

Definition GET_ARGS_SUCCEED : Z := 0.
Definition INSUFFICIENT_ARGS_FAIL : Z := 2.
Definition ARG_BELOW_ONE_FAIL : Z := 3.
Definition ARG_NOT_A_NUMBER_FAIL : Z := 4.

(** The variables of the caller that [getArgs] stores into through its
    pointer parameters. *)
Record arguments := {
  arg_windowWidth : Z; arg_windowHeight : Z;
  arg_planeWidth : float; arg_planeHeight : float;
  arg_centerX : float; arg_centerY : float;
  arg_C : @complex float;
  arg_numberOfThreads : Z
}.

(** [s[0]]: the first character of a C string, the terminating NUL when the
    string is empty. *)
Definition first_char (s : string) : ascii :=
  match s with
  | EmptyString => Ascii.zero
  | String c _ => c
  end.

Section CommandLine.
(** The conversions of the C library, [strtol(s, &endptr, 10)] and
    [strtod(s, &endptr)]; [getArgs] never reads [endptr]. *)
Variable strtol : string -> Z.
Variable strtod : string -> float.

(** [argv] is the list of the [argc] argument strings, the program name
    first.  The result is the error code and the caller's variables as
    [getArgs] leaves them. *)
Definition getArgs (argv : list string) (vars : arguments) : Z * arguments :=
  let argc := Z.of_nat (length argv) in
  if argc <? 10 then (INSUFFICIENT_ARGS_FAIL, vars)
  else
    let arg := fun i : nat => nth i argv EmptyString in
    let windowWidth := strtol (arg 1%nat) in
    let windowHeight := strtol (arg 2%nat) in
    let planeWidth := strtod (arg 3%nat) in
    let planeHeight := strtod (arg 4%nat) in
    let centerX := strtod (arg 5%nat) in
    let centerY := strtod (arg 6%nat) in
    let a := strtod (arg 7%nat) in
    let b := strtod (arg 8%nat) in
    let numberOfThreads := strtol (arg 9%nat) in
    let written :=
      {| arg_windowWidth := windowWidth; arg_windowHeight := windowHeight;
         arg_planeWidth := planeWidth; arg_planeHeight := planeHeight;
         arg_centerX := centerX; arg_centerY := centerY;
         arg_C := arg_C vars;
         arg_numberOfThreads := numberOfThreads |} in
    let starts_with_0 := fun i : nat => Ascii.eqb (first_char (arg i)) "0"%char in
    if ((windowWidth =? 0) && negb (starts_with_0 1%nat))
       || ((windowHeight =? 0) && negb (starts_with_0 2%nat))
       || ((planeWidth ==? 0%float)%dbl && negb (starts_with_0 3%nat))
       || ((planeHeight ==? 0%float)%dbl && negb (starts_with_0 4%nat))
       || ((centerX ==? of_int 0)%dbl && negb (starts_with_0 5%nat))
       || ((centerY ==? of_int 0)%dbl && negb (starts_with_0 6%nat))
       || ((a ==? of_int 0)%dbl && negb (starts_with_0 7%nat))
       || ((b ==? of_int 0)%dbl && negb (starts_with_0 8%nat))
       || ((numberOfThreads =? 0) && negb (starts_with_0 9%nat))
    then (ARG_NOT_A_NUMBER_FAIL, written)
    else if (windowWidth <=? 0) || (windowHeight <=? 0)
    then (ARG_BELOW_ONE_FAIL, written)
    else if (planeWidth <=? 0)%float || (planeHeight <=? 0)%float
    then (ARG_BELOW_ONE_FAIL, written)
    else if numberOfThreads <=? 0
    then (ARG_BELOW_ONE_FAIL, written)
    else
      (GET_ARGS_SUCCEED,
       {| arg_windowWidth := windowWidth; arg_windowHeight := windowHeight;
          arg_planeWidth := planeWidth; arg_planeHeight := planeHeight;
          arg_centerX := centerX; arg_centerY := centerY;
          arg_C := radd a (rmul b Complex_I);
          arg_numberOfThreads := numberOfThreads |}).

End CommandLine.

(** ** HelperFunctions.c: waiting for the window to close *)

Definition SDL_QUIT : Z := 256.

(** One call of [SDL_WaitEvent]: the value it returns and the type of the
    event it delivers. *)
Record wait := { returned : Z; event_type : Z }.

(** [waitForClose] on the calls of [SDL_WaitEvent] to come: the value it
    returns and the calls left; [None] while the calls listed end before the
    loop does. *)
Fixpoint waitForClose (events : list wait) : option (Z * list wait) :=
  match events with
  | [] => None
  | e :: rest =>
      if returned e =? 0 then Some (1, rest)
      else if negb (event_type e =? SDL_QUIT) then waitForClose rest
      else Some (0, rest)
  end.

(** ** Drawing.c: drawing the colour map *)

(** The calls [drawJuliaSet] makes on the renderer. *)
Inductive SDL_call :=
  | SDL_SetRenderDrawColor (r g b a : Z)
  | SDL_RenderClear
  | SDL_RenderDrawRect (x y w h : Z)
  | SDL_RenderPresent.

(** The body of the inner loop of [drawJuliaSet]: no result when
    [colorMap[x][y]] was never stored to. *)
Definition draw_pixel (colorMap : gmap (Z * Z) SDL_Color) (x y : Z)
    (calls : list SDL_call) : option (list SDL_call) :=
  match colorMap !! (x, y) with
  | Some c =>
      Some (calls ++ [SDL_SetRenderDrawColor (SDL.r c) (SDL.g c) (SDL.b c) (SDL.a c);
                      SDL_RenderDrawRect x y 2 2])
  | None => None
  end.

(** The calls of [drawJuliaSet], in order; [None] when the fuel does not
    suffice or a cell read was never stored to. *)
Definition drawJuliaSet (fuel : nat) (colorMap : gmap (Z * Z) SDL_Color)
    (windowWidth windowHeight : Z) : option (list SDL_call) :=
  match
    for_lt fuel 0 windowWidth 1
      (fun x => for_lt fuel 0 windowHeight 1 (draw_pixel colorMap x))
      [SDL_SetRenderDrawColor 0 0 0 255; SDL_RenderClear]
  with
  | Some calls => Some (calls ++ [SDL_RenderPresent])
  | None => None
  end.

(** What the SDL library answers to [initializeSDL]: the value of
    [SDL_Init], and whether [SDL_CreateWindow] and [SDL_CreateRenderer]
    return a pointer other than NULL. *)
Record SDL_answers := {
  SDL_Init : Z; SDL_CreateWindow : bool; SDL_CreateRenderer : bool
}.

(** [initializeSDL]; a pointer parameter is [true] when it is not NULL. *)
Definition initializeSDL (title window renderer : bool) (sdl : SDL_answers) : bool :=
  if negb title then false
  else if negb window then false
  else if negb renderer then false
  else if negb (SDL_Init sdl =? 0) then false
  else if negb (SDL_CreateWindow sdl) then false
  else if negb (SDL_CreateRenderer sdl) then false
  else true.

(** ** Project04_01.c: main *)

Definition SUCCESS : Z := 0.
Definition FAILURE : Z := 1.

(** The order in which the stores of running threads reach the colour map:
    each pick names the thread whose next store is performed; a pick of a
    thread with no store left is passed over, and once the picks are used up
    the threads finish one after the other. *)
Fixpoint scheduled (picks : list nat) (threads : list (list write)) : list write :=
  match picks with
  | [] => concat threads
  | i :: picks =>
      match threads !! i with
      | Some (w :: t) => w :: scheduled picks (<[i := t]> threads)
      | _ => scheduled picks threads
      end
  end.

(** [SDL_CreateThread]: when SDL creates the thread, the thread runs the
    function on the data; otherwise nothing runs. *)
Definition SDL_CreateThread (created : bool) (fn : ThreadData -> option (list write))
    (data : ThreadData) : option (list write) :=
  if created then fn data else Some [].

(** What [main] meets outside the program: whether the stack holds the
    variable-length arrays [threadList] and [dataList] for a number of
    threads, whether every [malloc] of [newColorMap] returns memory, for
    each [threadID] whether [SDL_CreateThread] creates the thread, the
    scheduling of the threads, the answers of SDL, and the calls of
    [SDL_WaitEvent] to come. *)
Record surroundings := {
  stack_holds : Z -> bool;
  malloc_returns : bool;
  thread_created : Z -> bool;
  picks : list nat;
  answers : SDL_answers;
  events : list wait
}.

(** [main]: the exit code and the calls made on the renderer.  [vars]
    stands for the uninitialised variables handed to [getArgs].  [main]
    checks none of its allocations: without the memory of the colour map
    or of the arrays its stores are undefined, and it has no outcome.  The
    colour map of [newColorMap] starts with no cell stored to;
    [SDL_WaitThread] joins every thread that was created. *)
Definition main (strtol : string -> Z) (strtod : string -> float) (fuel : nat)
    (argv : list string) (vars : arguments) (env : surroundings)
    : option (Z * list SDL_call) :=
  let '(result, vars) := getArgs strtol strtod argv vars in
  if negb (result =? 0) then Some (result, [])
  else if negb (malloc_returns env) then None
  else if negb (stack_holds env (arg_numberOfThreads vars)) then None
  else
    match
      dataList fuel (arg_centerX vars) (arg_centerY vars)
        (arg_planeWidth vars) (arg_planeHeight vars)
        (arg_windowWidth vars) (arg_windowHeight vars)
        NUM_ITERATIONS (arg_C vars) (arg_numberOfThreads vars)
      ≫= mapM (fun data =>
                 SDL_CreateThread (thread_created env (d_threadID data))
                   (partialFill fuel) data)
    with
    | None => None
    | Some threads =>
        let colorMap := performAll ∅ (scheduled (picks env) threads) in
        if negb (initializeSDL true true true (answers env)) then Some (FAILURE, [])
        else
          match drawJuliaSet fuel colorMap
                  (arg_windowWidth vars) (arg_windowHeight vars) with
          | None => None
          | Some calls =>
              match waitForClose (events env) with
              | None => None
              | Some (result, _) =>
                  if negb (result =? 0) then Some (FAILURE, calls)
                  else Some (SUCCESS, calls)
              end
          end
    end.

(** ** Notions used to state the properties *)

(** A fresh cell, as [fillJuliaSet] initialises its [stageEliminated]. *)
Definition fresh_buffer : int_buffer := {| held := -1; stores := 0 |}.

(** Two doubles that differ at most in the sign of a zero.  [x == y] holds
    for such a pair, and for no other pair of distinct doubles. *)
Definition sf_zero (a : spec_float) : Prop :=
  match a with S754_zero _ => True | _ => False end.

Definition sfsim (a b : spec_float) : Prop := a = b \/ (sf_zero a /\ sf_zero b).

Definition sim (x y : float) : Prop := sfsim (Prim2SF x) (Prim2SF y).

Definition csim (z w : @complex float) : Prop :=
  sim (creal z) (creal w) /\ sim (cimag z) (cimag w).



(** Agreement up to 2^-20, far coarser than any rounding error of the
    mapper on plane coordinates of ordinary size. *)
Definition within_tolerance (x y : float) : bool :=
  (abs (x - y) <=? 0x1p-20)%float.

(** The colour the body of the fill computes for pixel (x, y), taken with a
    fresh [stageEliminated]. *)
Definition pixelColor (centerX centerY planeWidth planeHeight : float)
    (windowWidth windowHeight numIterations : Z) (C : complex) (x y : Z) : SDL_Color :=
  let compX := XTransform x centerX planeWidth windowWidth in
  let compY := YTransform y centerY planeHeight windowHeight in
  let z := radd compX (rmul compY Complex_I) in
  let '(inSet, stage) := isInJuliaSet z C numIterations {| held := -1; stores := 0 |} in
  if inSet then colorInSet else colorOutOfSet (held stage).

(** [len] values from [v] on, [step] apart. *)
Fixpoint stride (len : nat) (v step : Z) : list Z :=
  match len with
  | O => []
  | S len' => v :: stride len' (v + step) step
  end.

(** The values [v], [v + step], ... below [bound]: the counter values for
    which a [for_lt] loop runs its body. *)
Definition counter_values (v bound step : Z) : list Z :=
  stride (Z.to_nat ((bound - v + step - 1) / step)) v step.

(** The stores of worker [threadID] in closed form: its columns left to
    right, each from top to bottom. *)
Definition worker_stores (centerX centerY planeWidth planeHeight : float)
    (windowWidth windowHeight numIterations : Z) (C : complex)
    (numberOfThreads threadID : Z) : list write :=
  x ← counter_values threadID windowWidth numberOfThreads;
  (fun y => Write x y (pixelColor centerX centerY planeWidth planeHeight
                         windowWidth windowHeight numIterations C x y))
  <$> seqZ 0 windowHeight.

(** The data packets of [main] in closed form. *)
Definition packets (centerX centerY planeWidth planeHeight : float)
    (windowWidth windowHeight numIterations : Z) (C : @complex float)
    (numberOfThreads : Z) : list ThreadData :=
  (fun threadID =>
     {| d_centerX := centerX; d_centerY := centerY;
        d_planeWidth := planeWidth; d_planeHeight := planeHeight;
        d_C := C; d_windowWidth := windowWidth; d_windowHeight := windowHeight;
        d_threadID := threadID; d_numberOfThreads := cast_int numberOfThreads;
        d_numIterations := numIterations |})
  <$> seqZ 0 numberOfThreads.

(** The channels of [colorOutOfSet] against the integral part of the channel
    expressions and against their value in exact arithmetic, stage by stage. *)
Definition channels_as_computed (s : Z) : bool :=
  (SDL.r (colorOutOfSet s) =? integral_part (red_value s)) &&
  (SDL.g (colorOutOfSet s) =? integral_part (green_value s)) &&
  (SDL.b (colorOutOfSet s) =? integral_part (blue_value s)) &&
  (SDL.r (colorOutOfSet s) =? 10 + 8 * s / 5) &&
  (SDL.g (colorOutOfSet s) =? 10 + 4 * s / 5) &&
  (SDL.b (colorOutOfSet s) =? 30 + 7 * s / 5) &&
  (SDL.a (colorOutOfSet s) =? 255).

(** The channel expressions of [colorOutOfSet] lie within 0..255. *)
Definition values_fit_a_byte (s : Z) : bool :=
  (0 <=? red_value s)%float && (red_value s <=? 255)%float &&
  (0 <=? green_value s)%float && (green_value s <=? 255)%float &&
  (0 <=? blue_value s)%float && (blue_value s <=? 255)%float &&
  (0 <=? opacity_value s) && (opacity_value s <=? 255).

(** ** Notions used to state further properties *)

(** The point opposite to [z]. *)
Definition cneg (z : @complex float) : @complex float :=
  ((- creal z)%float, (- cimag z)%float).

(** Whether argument [i] of the command line converts to zero: arguments 1,
    2 and 9 are read by [strtol], arguments 3 to 8 by [strtod]. *)
Definition converts_to_zero (strtol : string -> Z) (strtod : string -> float)
    (argv : list string) (i : nat) : bool :=
  match i with
  | 1%nat | 2%nat | 9%nat => strtol (nth i argv EmptyString) =? 0
  | _ => (strtod (nth i argv EmptyString) =? 0)%float
  end.

(** Argument [i] converts to zero and does not begin with the character 0. *)
Definition zero_without_0 (strtol : string -> Z) (strtod : string -> float)
    (argv : list string) (i : nat) : bool :=
  converts_to_zero strtol strtod argv i
  && negb (Ascii.eqb (first_char (nth i argv EmptyString)) "0"%char).

(** One of the arguments 1 to 9 does so. *)
Definition misread (strtol : string -> Z) (strtod : string -> float)
    (argv : list string) : bool :=
  existsb (zero_without_0 strtol strtod argv) (seq 1 9).

(** A window dimension, a plane dimension or the number of threads compares
    less than or equal to zero. *)
Definition below_one (strtol : string -> Z) (strtod : string -> float)
    (argv : list string) : bool :=
  (strtol (nth 1 argv EmptyString) <=? 0)
  || (strtol (nth 2 argv EmptyString) <=? 0)
  || (strtod (nth 3 argv EmptyString) <=? 0)%float
  || (strtod (nth 4 argv EmptyString) <=? 0)%float
  || (strtol (nth 9 argv EmptyString) <=? 0).

(** The variables of the caller with arguments 1 to 6 and 9 converted and
    stored, and [C] as given. *)
Definition converted (strtol : string -> Z) (strtod : string -> float)
    (argv : list string) (C : @complex float) : arguments :=
  {| arg_windowWidth := strtol (nth 1 argv EmptyString);
     arg_windowHeight := strtol (nth 2 argv EmptyString);
     arg_planeWidth := strtod (nth 3 argv EmptyString);
     arg_planeHeight := strtod (nth 4 argv EmptyString);
     arg_centerX := strtod (nth 5 argv EmptyString);
     arg_centerY := strtod (nth 6 argv EmptyString);
     arg_C := C;
     arg_numberOfThreads := strtol (nth 9 argv EmptyString) |}.

(** The calls that draw a picture of [windowWidth] by [windowHeight] pixels
    coloured by [color]: the clearing of the window, for each pixel, column
    by column, its colour and its rectangle, and the presentation. *)
Definition picture (color : Z -> Z -> SDL_Color) (windowWidth windowHeight : Z)
    : list SDL_call :=
  [SDL_SetRenderDrawColor 0 0 0 255; SDL_RenderClear]
  ++ (x ← seqZ 0 windowWidth;
      y ← seqZ 0 windowHeight;
      [SDL_SetRenderDrawColor (SDL.r (color x y)) (SDL.g (color x y))
         (SDL.b (color x y)) (SDL.a (color x y));
       SDL_RenderDrawRect x y 2 2])
  ++ [SDL_RenderPresent].

(** An event that ends neither way the loop of [waitForClose]. *)
Definition passed_over (e : wait) : bool :=
  negb (returned e =? 0) && negb (event_type e =? SDL_QUIT).

(** Conversions for the examples: the value of the leading run of decimal
    digits of a string, as [strtol] and [strtod] give it for an unsigned
    integer literal, and NaN for the text [nan]. *)
Definition digit_value (c : ascii) : option Z :=
  let n := Z.of_nat (nat_of_ascii c) in
  if (48 <=? n) && (n <=? 57) then Some (n - 48) else None.

Fixpoint read_digits (acc : Z) (s : string) : Z :=
  match s with
  | EmptyString => acc
  | String c rest =>
      match digit_value c with
      | Some d => read_digits (10 * acc + d) rest
      | None => acc
      end
  end.

Definition example_strtol (s : string) : Z := read_digits 0 s.

Definition example_strtod (s : string) : float :=
  if String.eqb s "nan" then nan else float_of_Z (read_digits 0 s).

(** The command line of the first run of the Makefile's test target, with
    the constant 0.285 + 0.01i replaced by 1 + 2i. *)
Definition example_argv : list string :=
  ["Project04_01"; "800"; "600"; "4"; "3"; "0"; "0"; "1"; "2"; "1"]%string.


Definition example_vars : arguments :=
  {| arg_windowWidth := 0; arg_windowHeight := 0;
     arg_planeWidth := 0; arg_planeHeight := 0;
     arg_centerX := 0; arg_centerY := 0;
     arg_C := (0, 0)%float; arg_numberOfThreads := 0 |}.

(** Surroundings in which memory is granted, every thread is created, the
    two threads of the small window take turns out of order, SDL starts,
    and the second event closes the window. *)
Definition example_surroundings : surroundings :=
  {| stack_holds := fun n => n <=? 1000;
     malloc_returns := true;
     thread_created := fun _ => true;
     picks := [1; 0; 0; 1; 1]%nat;
     answers := {| SDL_Init := 0; SDL_CreateWindow := true;
                   SDL_CreateRenderer := true |};
     events := [{| returned := 1; event_type := 1024 |};
                {| returned := 1; event_type := SDL_QUIT |}] |}.

(** ** Properties of the evaluator, for any arithmetic *)

Section EvaluatorFacts.
Context {D : Type} {ops : Double D}.
Implicit Types (z C : @complex D) (st : int_buffer).

Lemma reaches_S z C k :
  reaches z C (S k) = reaches z C k && (negb (escapes z C k) && negb (repeats z C k)).
Proof.
  unfold reaches. rewrite seq_S, forallb_app. simpl.
  now rewrite andb_true_r.
Qed.

(** One pass of the loop, started on the orbit. *)
Lemma isInJuliaSet_loop_pass z C rem k i st :
  isInJuliaSet_loop (S rem) i C (orbit z C k) (orbit z C k) st =
  if escapes z C k then (false, store i st)
  else if repeats z C k then (true, st)
  else isInJuliaSet_loop rem (i + 1) C (orbit z C (S k)) (orbit z C (S k)) st.
Proof. reflexivity. Qed.

(** While no pass escapes or repeats, the loop walks along the orbit. *)
Lemma isInJuliaSet_loop_walk z C st k : forall rem,
  reaches z C k = true ->
  isInJuliaSet_loop (k + rem) 0 C z z st =
  isInJuliaSet_loop rem (Z.of_nat k) C (orbit z C k) (orbit z C k) st.
Proof.
  induction k as [|k IH]; intros rem Hk; [reflexivity|].
  rewrite reaches_S in Hk.
  apply andb_prop in Hk as [Hk [He Hr]%andb_prop].
  apply negb_true_iff in He, Hr.
  replace (S k + rem)%nat with (k + S rem)%nat by lia.
  rewrite IH by assumption.
  rewrite isInJuliaSet_loop_pass, He, Hr.
  now replace (Z.of_nat k + 1) with (Z.of_nat (S k)) by lia.
Qed.

Lemma isInJuliaSet_escape_at z C N st k :
  (k < Z.to_nat N)%nat -> reaches z C k = true -> escapes z C k = true ->
  isInJuliaSet z C N st = (false, store (Z.of_nat k) st).
Proof.
  intros Hlt Hk He. unfold isInJuliaSet.
  replace (Z.to_nat N) with (k + S (Z.to_nat N - S k))%nat by lia.
  rewrite isInJuliaSet_loop_walk by assumption.
  now rewrite isInJuliaSet_loop_pass, He.
Qed.

Lemma isInJuliaSet_repeat_at z C N st k :
  (k < Z.to_nat N)%nat -> reaches z C k = true ->
  escapes z C k = false -> repeats z C k = true ->
  isInJuliaSet z C N st = (true, st).
Proof.
  intros Hlt Hk He Hr. unfold isInJuliaSet.
  replace (Z.to_nat N) with (k + S (Z.to_nat N - S k))%nat by lia.
  rewrite isInJuliaSet_loop_walk by assumption.
  now rewrite isInJuliaSet_loop_pass, He, Hr.
Qed.

Lemma isInJuliaSet_exhausted z C N st :
  reaches z C (Z.to_nat N) = true -> isInJuliaSet z C N st = (true, st).
Proof.
  intros Hk. unfold isInJuliaSet.
  replace (Z.to_nat N) with (Z.to_nat N + 0)%nat by lia.
  now rewrite isInJuliaSet_loop_walk.
Qed.

(** The outcome of the loop does not depend on the cell it is given: either
    it answers [true] and leaves the cell alone, or it answers [false] and
    stores one counter value of the loop. *)
Lemma isInJuliaSet_loop_outcome C : forall rem i prevZ currentZ,
  (forall st, isInJuliaSet_loop rem i C prevZ currentZ st = (true, st)) \/
  (exists j, i <= j < i + Z.of_nat rem /\
     forall st, isInJuliaSet_loop rem i C prevZ currentZ st = (false, store j st)).
Proof.
  induction rem as [|rem IH]; intros i prevZ currentZ; simpl; [now left|].
  destruct (dgt _ _); simpl.
  - right. exists i. split; [lia|reflexivity].
  - destruct (ceq _ _); simpl; [now left|].
    destruct (IH (i + 1) (f currentZ C) (f currentZ C)) as [Ht|[j [Hj Hs]]].
    + now left.
    + right. exists j. split; [lia|assumption].
Qed.


End EvaluatorFacts.

(** ** Doubles that differ in the sign of a zero *)

Lemma sfsim_refl a : sfsim a a.
Proof. now left. Qed.

Lemma sfsim_trans a b c : sfsim a b -> sfsim b c -> sfsim a c.
Proof.
  intros [->|[Ha Hb]] [->|[Hb' Hc]]; try (now left); now right.
Qed.

(** Case analysis for a binary operation on two pairs of similar operands:
    equal operands give equal results, and a zero operand gives a result
    that does not depend on the sign of the zero, except in the sign of a
    zero result. *)
Ltac sim_cases :=
  intros [->|[Ha Ha']] [->|[Hb Hb']];
  [ now left | | | ];
  repeat match goal with
  | H : sf_zero ?a |- _ => destruct a; try contradiction; clear H
  end;
  repeat match goal with
  | |- context [match ?b with _ => _ end] => is_var b; destruct b
  end; cbn; try (now left); try (now right).

Lemma SFmul_sim a a' b b' :
  sfsim a a' -> sfsim b b' -> sfsim (SFmul prec emax a b) (SFmul prec emax a' b').
Proof. unfold SFmul. sim_cases. Qed.

Lemma SFadd_sim a a' b b' :
  sfsim a a' -> sfsim b b' -> sfsim (SFadd prec emax a b) (SFadd prec emax a' b').
Proof. unfold SFadd. sim_cases. Qed.

Lemma SFsub_sim a a' b b' :
  sfsim a a' -> sfsim b b' -> sfsim (SFsub prec emax a b) (SFsub prec emax a' b').
Proof. unfold SFsub. sim_cases. Qed.

Lemma SFsqrt_sim a a' : sfsim a a' -> sfsim (SFsqrt prec emax a) (SFsqrt prec emax a').
Proof.
  intros [->|[Ha Ha']]; [now left|].
  destruct a, a'; try contradiction. now right.
Qed.

Lemma SFcompare_sim a a' b b' :
  sfsim a a' -> sfsim b b' -> SFcompare a b = SFcompare a' b'.
Proof.
  intros [->|[Ha Ha']] [->|[Hb Hb']]; [reflexivity| | | ];
  repeat match goal with
  | H : sf_zero ?a |- _ => destruct a; try contradiction; clear H
  end;
  repeat match goal with
  | |- context [match ?b with _ => _ end] => is_var b; destruct b
  end; reflexivity.
Qed.

Lemma SFeqb_sim a b : SFeqb a b = true -> sfsim a b.
Proof.
  unfold SFeqb.
  destruct a as [sa|sa| |sa ma ea], b as [sb|sb| |sb mb eb]; cbn; intros H;
    try discriminate H; try (now right);
    repeat match goal with s : bool |- _ => destruct s end;
    try discriminate H; try (now left);
    destruct (Z.compare ea eb) eqn:He; try discriminate H;
    destruct (Pos.compare_cont Eq ma mb) eqn:Hm; try discriminate H;
    apply Z.compare_eq in He; apply Pos.compare_eq in Hm; subst; now left.
Qed.

Lemma sim_refl x : sim x x.
Proof. apply sfsim_refl. Qed.

Lemma sim_trans x y z : sim x y -> sim y z -> sim x z.
Proof. apply sfsim_trans. Qed.

Lemma mul_sim x x' y y' : sim x x' -> sim y y' -> sim (x * y) (x' * y').
Proof. unfold sim. rewrite !FloatAxioms.mul_spec. apply SFmul_sim. Qed.

Lemma add_sim x x' y y' : sim x x' -> sim y y' -> sim (x + y) (x' + y').
Proof. unfold sim. rewrite !FloatAxioms.add_spec. apply SFadd_sim. Qed.

Lemma sub_sim x x' y y' : sim x x' -> sim y y' -> sim (x - y) (x' - y').
Proof. unfold sim. rewrite !FloatAxioms.sub_spec. apply SFsub_sim. Qed.

Lemma sqrt_sim x x' : sim x x' -> sim (PrimFloat.sqrt x) (PrimFloat.sqrt x').
Proof. unfold sim. rewrite !FloatAxioms.sqrt_spec. apply SFsqrt_sim. Qed.

Lemma ltb_sim x x' y y' : sim x x' -> sim y y' -> (x <? y)%float = (x' <? y')%float.
Proof.
  unfold sim. intros Hx Hy. rewrite !FloatAxioms.ltb_spec. unfold SFltb.
  now rewrite (SFcompare_sim _ _ _ _ Hx Hy).
Qed.

Lemma eqb_sim x y : (x =? y)%float = true -> sim x y.
Proof. rewrite FloatAxioms.eqb_spec. apply SFeqb_sim. Qed.

Lemma csim_refl z : csim z z.
Proof. split; apply sim_refl. Qed.

Lemma csim_trans z w u : csim z w -> csim w u -> csim z u.
Proof. intros [? ?] [? ?]. split; eapply sim_trans; eassumption. Qed.

Lemma ceq_csim z w : ceq z w = true -> csim z w.
Proof.
  unfold ceq. intros [? ?]%andb_prop. split; now apply eqb_sim.
Qed.

Lemma f_csim z z' C : csim z z' -> csim (f z C) (f z' C).
Proof.
  intros [Hr Hi]. unfold f, cadd, cmul; cbn.
  split.
  - apply add_sim; [|apply sim_refl]. apply sub_sim; now apply mul_sim.
  - apply add_sim; [|apply sim_refl]. apply add_sim; now apply mul_sim.
Qed.

Lemma escape_csim z z' :
  csim z z' ->
  (distanceFromOrigin z >? lit_two)%dbl = (distanceFromOrigin z' >? lit_two)%dbl.
Proof.
  intros [Hr Hi]. unfold distanceFromOrigin; cbn.
  apply ltb_sim; [apply sim_refl|].
  apply sqrt_sim, add_sim; now apply mul_sim.
Qed.

(** Once a pass has reproduced [p] up to the sign of zeros without leaving
    the disc, every later pass does. *)
Lemma escapeTime_loop_settled C : forall rem i p p' st,
  csim p' p -> csim (f p C) p ->
  (distanceFromOrigin p >? lit_two)%dbl = false ->
  escapeTime_loop rem i C p' st = (true, st).
Proof.
  induction rem as [|rem IH]; intros i p p' st Hp' Hfix Hin; [reflexivity|].
  cbn [escapeTime_loop].
  assert (Hnext : csim (f p' C) p).
  { eapply csim_trans; [apply f_csim; eassumption|assumption]. }
  rewrite (escape_csim _ _ Hnext), Hin.
  now apply IH with (p := p).
Qed.

Lemma isInJuliaSet_loop_escapeTime C : forall rem i z st,
  isInJuliaSet_loop rem i C z z st = escapeTime_loop rem i C z st.
Proof.
  induction rem as [|rem IH]; intros i z st; [reflexivity|].
  cbn [isInJuliaSet_loop escapeTime_loop].
  destruct (distanceFromOrigin (f z C) >? lit_two)%dbl eqn:Hesc; [reflexivity|].
  destruct (ceq (f z C) z) eqn:Heq; [|apply IH].
  symmetry. apply escapeTime_loop_settled with (p := f z C).
  - apply csim_refl.
  - apply f_csim, ceq_csim, Heq.
  - exact Hesc.
Qed.

(** ** The evaluator: the properties of the specification *)

(** C1. [isInJuliaSet] iterates [current <- current^2 + C] from
    [current = Z].  For a bound [numIterations >= 1]: when pass [i] (counted
    from 0) is reached and finds the distance of [current] from the origin
    above 2.0, the answer is "not in the set" and [i] is what is stored into
    [stageEliminated]; when all [numIterations] passes complete without an
    escape or a repeated value, the answer is "in the set". *)
Theorem isInJuliaSet_escape_time {D : Type} {ops : Double D}
    (z C : @complex D) (numIterations : Z) (st : int_buffer) :
  1 <= numIterations ->
  (orbit z C 0 = z /\
   forall k, orbit z C (S k) = cadd (cmul (orbit z C k) (orbit z C k)) C) /\
  (forall i, 0 <= i < numIterations ->
     reaches z C (Z.to_nat i) = true -> escapes z C (Z.to_nat i) = true ->
     isInJuliaSet z C numIterations st = (false, store i st)) /\
  (reaches z C (Z.to_nat numIterations) = true ->
     isInJuliaSet z C numIterations st = (true, st)).
Proof.
  intros HN. split; [split; reflexivity|]. split.
  - intros i Hi Hreach Hesc.
    rewrite (isInJuliaSet_escape_at z C numIterations st (Z.to_nat i)); try assumption.
    + now rewrite Z2Nat.id by lia.
    + lia.
  - apply isInJuliaSet_exhausted.
Qed.

Lemma isInJuliaSet_escape_time_witness :
  1 <= 100 /\
  (0 <= 1 < 100 /\
   reaches (1.2, 0)%float (0, 0)%float (Z.to_nat 1) = true /\
   escapes (1.2, 0)%float (0, 0)%float (Z.to_nat 1) = true /\
   isInJuliaSet (1.2, 0)%float (0, 0)%float 100 fresh_buffer
   = (false, store 1 fresh_buffer)) /\
  (reaches (0, 0)%float (-1, 0)%float (Z.to_nat 100) = true /\
   isInJuliaSet (0, 0)%float (-1, 0)%float 100 fresh_buffer = (true, fresh_buffer)).
Proof.
  assert (H100 : 1 <= 100) by lia.
  assert (Hi : 0 <= 1 < 100) by lia.
  assert (Hr : reaches (1.2, 0)%float (0, 0)%float (Z.to_nat 1) = true)
    by (vm_compute; reflexivity).
  assert (He : escapes (1.2, 0)%float (0, 0)%float (Z.to_nat 1) = true)
    by (vm_compute; reflexivity).
  assert (Hc : reaches (0, 0)%float (-1, 0)%float (Z.to_nat 100) = true)
    by (vm_compute; reflexivity).
  refine (conj H100 (conj (conj Hi (conj Hr (conj He _))) (conj Hc _))).
  - exact (proj1 (proj2 (isInJuliaSet_escape_time
                           (1.2, 0)%float (0, 0)%float 100 fresh_buffer H100))
             1 Hi Hr He).
  - exact (proj2 (proj2 (isInJuliaSet_escape_time
                           (0, 0)%float (-1, 0)%float 100 fresh_buffer H100)) Hc).
Defined.

(** C8. [isInJuliaSet] stores into [stageEliminated] exactly when it answers
    [false], and then exactly once; when it answers [true] the cell is left
    as it was. *)
Theorem isInJuliaSet_stores_iff_false {D : Type} {ops : Double D}
    (z C : @complex D) (numIterations : Z) (st : int_buffer) :
  let r := isInJuliaSet z C numIterations st in
  (fst r = false /\ stores (snd r) = S (stores st)) \/
  (fst r = true /\ snd r = st).
Proof.
  unfold isInJuliaSet.
  destruct (isInJuliaSet_loop_outcome C (Z.to_nat numIterations) 0 z z)
    as [Ht|[j [_ Hs]]].
  - right. now rewrite Ht.
  - left. now rewrite Hs.
Qed.

(** C9. For [numIterations <= 0] the loop of [isInJuliaSet] runs no pass:
    the answer is [true] and [stageEliminated] is not stored into. *)
Theorem isInJuliaSet_nonpositive_bound {D : Type} {ops : Double D}
    (z C : @complex D) (numIterations : Z) (st : int_buffer) :
  numIterations <= 0 ->
  Z.to_nat numIterations = 0%nat /\
  isInJuliaSet z C numIterations st = (true, st).
Proof.
  intros HN. assert (H0 : Z.to_nat numIterations = 0%nat) by lia.
  split; [assumption|]. unfold isInJuliaSet. now rewrite H0.
Qed.

Lemma isInJuliaSet_nonpositive_bound_witness :
  -5 <= 0 /\
  isInJuliaSet (3, 4)%float (0.285, 0.01)%float (-5) fresh_buffer = (true, fresh_buffer).
Proof.
  assert (H : -5 <= 0) by lia.
  split; [exact H|].
  exact (proj2 (isInJuliaSet_nonpositive_bound
                  (3, 4)%float (0.285, 0.01)%float (-5) fresh_buffer H)).
Defined.

(** C4. On the doubles of the program the [currentZ == prevZ] exit never
    changes the outcome: for every point, constant and bound, [isInJuliaSet]
    gives the answer (and leaves the cell) of the same loop without the
    exit. *)
Theorem fixed_point_exit_preserves_classification
    (z C : @complex float) (numIterations : Z) (st : int_buffer) :
  isInJuliaSet z C numIterations st = escapeTime z C numIterations st.
Proof. apply isInJuliaSet_loop_escapeTime. Qed.

(** ** Known escape: points outside the disc of radius 2, with C = 0 *)





(** ** The coordinate mapper *)







(** On the doubles of the program, the viewports of the Makefile's test
    target (800 x 600 pixels) map their corner and centre pixels exactly. *)
Example test_viewport_corner_and_centre :
  XTransform 0 0%float 4%float 800 = (-2)%float /\
  YTransform 0 0%float 3%float 600 = 1.5%float /\
  XTransform (800 / 2) 0%float 4%float 800 = 0%float /\
  YTransform (600 / 2) 0%float 3%float 600 = 0%float /\
  within_tolerance (XTransform (800 / 2) 0.45%float 1%float 800) 0.45%float = true /\
  within_tolerance (YTransform (600 / 2) 0.22%float 0.75%float 600) 0.22%float = true.
Proof. repeat split; vm_compute; reflexivity. Qed.

(** ** The colour policy *)

Lemma forallb_seqZ (p : Z -> bool) (m n : Z) :
  forallb p (seqZ m n) = true -> forall k, m <= k < m + n -> p k = true.
Proof.
  intros Hall k Hk. rewrite forallb_forall in Hall.
  apply Hall, list_elem_of_In, elem_of_seqZ, Hk.
Qed.

Lemma channels_up_to_153 (s : Z) :
  0 <= s <= 153 -> channels_as_computed s = true.
Proof.
  intros Hs. apply (forallb_seqZ channels_as_computed 0 154); [|lia].
  vm_compute. reflexivity.
Qed.

Lemma values_up_to_99 (s : Z) :
  0 <= s <= 99 -> values_fit_a_byte s = true.
Proof.
  intros Hs. apply (forallb_seqZ values_fit_a_byte 0 100); [|lia].
  vm_compute. reflexivity.
Qed.

(** C6, as stated: at stage 1 the red expression is 11.6 and the channel,
    an 8-bit integer, holds 11; and at stage 154 the red expression is 256.4,
    above every 8-bit value, where the model's channel holds 0, below the
    254 of stage 153. *)
Lemma colorOutOfSet_not_the_expression :
  red_value 1 = 11.6%float /\
  SDL.r (colorOutOfSet 1) = 11 /\
  (of_int (SDL.r (colorOutOfSet 1)) ==? red_value 1)%dbl = false /\
  red_value 154 = 256.39999999999998%float /\
  SDL.r (colorOutOfSet 153) = 254 /\
  SDL.r (colorOutOfSet 154) = 0.
Proof. repeat split; vm_compute; reflexivity. Qed.

(** C6, amended.  For every stage from 0 to 153 (the stages whose channel
    expressions stay below 256) each channel of [colorOutOfSet] is the
    integral part of baseChannel + delta * stage, that is 10 + 8s/5,
    10 + 4s/5 and 30 + 7s/5 rounded down for red, green and blue, and 255
    for opacity; and for two such stages s1 < s2 the red, green and blue
    channels do not decrease and the opacity is the same. *)
Theorem colorOutOfSet_channels :
  (forall s, 0 <= s <= 153 ->
     SDL.r (colorOutOfSet s) = integral_part (red_value s) /\
     SDL.g (colorOutOfSet s) = integral_part (green_value s) /\
     SDL.b (colorOutOfSet s) = integral_part (blue_value s) /\
     colorOutOfSet s
     = {| SDL.r := 10 + 8 * s / 5; SDL.g := 10 + 4 * s / 5;
          SDL.b := 30 + 7 * s / 5; SDL.a := 255 |}) /\
  (forall s1 s2, 0 <= s1 -> s1 < s2 -> s2 <= 153 ->
     SDL.r (colorOutOfSet s1) <= SDL.r (colorOutOfSet s2) /\
     SDL.g (colorOutOfSet s1) <= SDL.g (colorOutOfSet s2) /\
     SDL.b (colorOutOfSet s1) <= SDL.b (colorOutOfSet s2) /\
     SDL.a (colorOutOfSet s1) = SDL.a (colorOutOfSet s2)).
Proof.
  assert (Hform : forall s, 0 <= s <= 153 ->
            SDL.r (colorOutOfSet s) = integral_part (red_value s) /\
            SDL.g (colorOutOfSet s) = integral_part (green_value s) /\
            SDL.b (colorOutOfSet s) = integral_part (blue_value s) /\
            SDL.r (colorOutOfSet s) = 10 + 8 * s / 5 /\
            SDL.g (colorOutOfSet s) = 10 + 4 * s / 5 /\
            SDL.b (colorOutOfSet s) = 30 + 7 * s / 5 /\
            SDL.a (colorOutOfSet s) = 255).
  { intros s Hs. pose proof (channels_up_to_153 s Hs) as H.
    unfold channels_as_computed in H.
    repeat (apply andb_prop in H as [H ?]).
    repeat split; now apply Z.eqb_eq. }
  split.
  - intros s Hs. destruct (Hform s Hs) as (Hr & Hg & Hb & Hr' & Hg' & Hb' & Ha).
    repeat split; try assumption.
    destruct (colorOutOfSet s) as [cr cg cb ca]; cbn in *. congruence.
  - intros s1 s2 H0 Hlt H153.
    destruct (Hform s1 ltac:(lia)) as (_ & _ & _ & Hr1 & Hg1 & Hb1 & Ha1).
    destruct (Hform s2 ltac:(lia)) as (_ & _ & _ & Hr2 & Hg2 & Hb2 & Ha2).
    rewrite Hr1, Hr2, Hg1, Hg2, Hb1, Hb2, Ha1, Ha2.
    repeat split; try reflexivity;
      apply Z.add_le_mono_l, Z.div_le_mono; lia.
Qed.

Lemma colorOutOfSet_channels_witness :
  (0 <= 20 <= 153 /\
   colorOutOfSet 20 = {| SDL.r := 42; SDL.g := 26; SDL.b := 58; SDL.a := 255 |}) /\
  (0 <= 99 /\ 99 < 153 /\ 153 <= 153 /\
   SDL.r (colorOutOfSet 99) <= SDL.r (colorOutOfSet 153)).
Proof.
  assert (H20 : 0 <= 20 <= 153) by lia.
  assert (Ha : 0 <= 99) by lia.
  assert (Hb : 99 < 153) by lia.
  assert (Hc : 153 <= 153) by lia.
  refine (conj (conj H20 _) (conj Ha (conj Hb (conj Hc _)))).
  - exact (proj2 (proj2 (proj2 (proj1 colorOutOfSet_channels 20 H20)))).
  - exact (proj1 (proj2 colorOutOfSet_channels 99 153 Ha Hb Hc)).
Defined.

(** C10.  With the shipped constants and [NUM_ITERATIONS = 100], a stage
    that [isInJuliaSet] stores lies in 0..99, and for every stage in 0..99
    each channel expression of [colorOutOfSet] lies within 0..255 before it
    is stored, so that the stored channel is its integral part, unreduced. *)
Theorem shipped_colours_fit_a_byte :
  (forall (z C : @complex float) (st : int_buffer),
     fst (isInJuliaSet z C NUM_ITERATIONS st) = false ->
     0 <= held (snd (isInJuliaSet z C NUM_ITERATIONS st)) <= 99) /\
  (forall s, 0 <= s <= 99 ->
     values_fit_a_byte s = true /\
     Uint8_of_double (red_value s) = integral_part (red_value s) /\
     Uint8_of_double (green_value s) = integral_part (green_value s) /\
     Uint8_of_double (blue_value s) = integral_part (blue_value s) /\
     Uint8_of_int (opacity_value s) = opacity_value s).
Proof.
  split.
  - intros z C st Hf. unfold isInJuliaSet in *.
    destruct (isInJuliaSet_loop_outcome C (Z.to_nat NUM_ITERATIONS) 0 z z)
      as [Ht|[j [Hj Hs]]].
    + rewrite Ht in Hf. discriminate.
    + rewrite Hs. cbn. unfold NUM_ITERATIONS in Hj. lia.
  - intros s Hs. split; [now apply values_up_to_99|].
    pose proof (channels_up_to_153 s ltac:(lia)) as H.
    unfold channels_as_computed in H.
    repeat (apply andb_prop in H as [H ?]).
    repeat match goal with H : (_ =? _) = true |- _ => apply Z.eqb_eq in H end.
    repeat split; assumption || reflexivity.
Qed.

Lemma shipped_colours_fit_a_byte_witness :
  (fst (isInJuliaSet (0.6, 0.3)%float (0.285, 0.01)%float NUM_ITERATIONS fresh_buffer) = false /\
   0 <= held (snd (isInJuliaSet (0.6, 0.3)%float (0.285, 0.01)%float
                     NUM_ITERATIONS fresh_buffer)) <= 99) /\
  (0 <= 99 <= 99 /\ values_fit_a_byte 99 = true).
Proof.
  assert (Hf : fst (isInJuliaSet (0.6, 0.3)%float (0.285, 0.01)%float
                      NUM_ITERATIONS fresh_buffer) = false)
    by (vm_compute; reflexivity).
  assert (H99 : 0 <= 99 <= 99) by lia.
  refine (conj (conj Hf _) (conj H99 _)).
  - exact (proj1 shipped_colours_fit_a_byte (0.6, 0.3)%float (0.285, 0.01)%float
             fresh_buffer Hf).
  - exact (proj1 (proj2 shipped_colours_fit_a_byte 99 H99)).
Defined.

(** ** The counted loop *)

Lemma counter_values_done (v bound step : Z) :
  0 < step -> bound <= v -> counter_values v bound step = [].
Proof.
  intros Hstep Hv. unfold counter_values.
  assert (H : (bound - v + step - 1) / step < 1)
    by (apply Z.div_lt_upper_bound; lia).
  now replace (Z.to_nat ((bound - v + step - 1) / step)) with 0%nat by lia.
Qed.

Lemma counter_values_next (v bound step : Z) :
  0 < step -> v < bound ->
  counter_values v bound step = v :: counter_values (v + step) bound step.
Proof.
  intros Hstep Hv. unfold counter_values.
  replace (bound - v + step - 1) with ((bound - (v + step) + step - 1) + 1 * step) by lia.
  rewrite Z.div_add by lia.
  assert (H : -1 < (bound - (v + step) + step - 1) / step).
  { apply Z.lt_le_trans with (m := 0); [lia|]. apply Z.div_pos; lia. }
  replace (Z.to_nat ((bound - (v + step) + step - 1) / step + 1))
    with (S (Z.to_nat ((bound - (v + step) + step - 1) / step))) by lia.
  reflexivity.
Qed.

(** With a positive step that keeps the counter within [int], and enough
    fuel, [for_lt] runs its body once for each counter value, in order. *)
Lemma for_lt_total {St : Type} (g : Z -> St -> St) (body : Z -> St -> option St)
    (step bound : Z) :
  0 < step -> bound + step - 1 <= INT_MAX ->
  forall fuel v s, INT_MIN <= v -> (Z.to_nat (bound - v) < fuel)%nat ->
  (forall x s, v <= x < bound -> body x s = Some (g x s)) ->
  for_lt fuel v bound step body s
  = Some (foldl (fun s x => g x s) s (counter_values v bound step)).
Proof.
  intros Hstep Hmax. induction fuel as [|fuel IH]; intros v s Hv Hfuel Hbody; [lia|].
  cbn [for_lt]. destruct (Z.ltb_spec v bound) as [Hlt|Hge].
  - rewrite Hbody by lia.
    replace ((INT_MIN <=? v + step) && (v + step <=? INT_MAX)) with true
      by (symmetry; apply andb_true_intro; split; lia).
    rewrite IH; [| lia | lia | intros; apply Hbody; lia].
    now rewrite (counter_values_next v) by assumption.
  - now rewrite counter_values_done.
Qed.

(** A loop whose body has no result at one of its counter values has none. *)
Lemma for_lt_fails {St : Type} (body : Z -> St -> option St) (step bound x : Z) :
  0 < step -> (forall s, body x s = None) ->
  forall fuel v s, x ∈ counter_values v bound step ->
  for_lt fuel v bound step body s = None.
Proof.
  intros Hstep Hnone. induction fuel as [|fuel IH]; intros v s Hx; [reflexivity|].
  cbn [for_lt]. destruct (Z.ltb_spec v bound) as [Hlt|Hge].
  - rewrite (counter_values_next v) in Hx by assumption.
    destruct (body v s) as [s'|] eqn:E; [|reflexivity].
    destruct ((INT_MIN <=? v + step) && (v + step <=? INT_MAX)); [|reflexivity].
    apply IH. apply elem_of_cons in Hx as [->|Hx]; [|exact Hx].
    rewrite Hnone in E. discriminate E.
  - rewrite counter_values_done in Hx by assumption. inversion Hx.
Qed.

(** A loop whose first step takes the counter beyond [INT_MAX] has no
    result, whatever the fuel. *)
Lemma for_lt_overflow {St : Type} (body : Z -> St -> option St)
    (fuel : nat) (v bound step : Z) (s : St) :
  v < bound -> INT_MAX < v + step ->
  for_lt fuel v bound step body s = None.
Proof.
  intros Hv Hstep. destruct fuel as [|fuel]; [reflexivity|].
  cbn [for_lt]. destruct (Z.ltb_spec v bound) as [_|Hge]; [|lia].
  destruct (body v s) as [s'|]; [|reflexivity].
  destruct (Z.leb_spec (v + step) INT_MAX) as [Hle|_]; [lia|].
  now rewrite andb_false_r.
Qed.

Lemma elem_of_stride (x : Z) : forall len v step,
  x ∈ stride len v step <-> exists k, (k < len)%nat /\ x = v + Z.of_nat k * step.
Proof.
  induction len as [|len IH]; intros v step; cbn.
  - split; [intros H; inversion H|intros [k [Hk _]]; lia].
  - rewrite elem_of_cons, IH. split.
    + intros [->|[k [Hk ->]]]; [exists 0%nat|exists (S k)]; split; lia.
    + intros [[|k] [Hk ->]]; [left; lia|right]. exists k. split; lia.
Qed.

Lemma NoDup_stride : forall len v step, 0 < step -> NoDup (stride len v step).
Proof.
  induction len as [|len IH]; intros v step Hstep; cbn; constructor; [|now apply IH].
  rewrite elem_of_stride. intros [k [_ Hk]]. nia.
Qed.

Lemma stride_seqZ : forall len v, stride len v 1 = seqZ v (Z.of_nat len).
Proof.
  induction len as [|len IH]; intros v; [reflexivity|].
  cbn [stride]. rewrite seqZ_cons by lia. f_equal. rewrite IH. f_equal; lia.
Qed.

Lemma counter_values_seqZ (bound : Z) : counter_values 0 bound 1 = seqZ 0 bound.
Proof.
  unfold counter_values. rewrite stride_seqZ.
  replace (bound - 0 + 1 - 1) with bound by lia. rewrite Z.div_1_r.
  destruct (Z.le_gt_cases 0 bound).
  - now rewrite Z2Nat.id.
  - replace (Z.to_nat bound) with 0%nat by lia. now rewrite !seqZ_nil by lia.
Qed.

Lemma NoDup_counter_values (v bound step : Z) :
  0 < step -> NoDup (counter_values v bound step).
Proof. apply NoDup_stride. Qed.

(** The counter values from [v] are the values below the bound that lie a
    multiple of the step above [v]. *)
Lemma elem_of_counter_values (x v bound step : Z) :
  0 < step ->
  x ∈ counter_values v bound step <-> v <= x < bound /\ (x - v) mod step = 0.
Proof.
  intros Hstep. unfold counter_values. rewrite elem_of_stride.
  set (q := (bound - v + step - 1) / step).
  assert (Hq1 : step * q <= bound - v + step - 1)
    by (apply Z.mul_div_le; lia).
  assert (Hq2 : bound - v + step - 1 < step * (q + 1)).
  { pose proof (Z.mod_pos_bound (bound - v + step - 1) step Hstep).
    pose proof (Z.div_mod (bound - v + step - 1) step ltac:(lia)).
    fold q in H0. lia. }
  split.
  - intros [k [Hk ->]]. split; [nia|].
    replace (v + Z.of_nat k * step - v) with (Z.of_nat k * step) by lia.
    apply Z.mod_mul. lia.
  - intros [[Hv Hb] Hm].
    apply Z.mod_divide in Hm as [k Hk]; [|lia].
    assert (0 <= k) by nia.
    exists (Z.to_nat k). split; [|lia].
    assert (k < q) by nia. lia.
Qed.

(** For a worker index below the worker count, the columns of the worker are
    the columns of the window that are congruent to the index. *)
Lemma elem_of_worker_columns (x windowWidth numberOfThreads threadID : Z) :
  0 <= threadID < numberOfThreads ->
  x ∈ counter_values threadID windowWidth numberOfThreads
  <-> 0 <= x < windowWidth /\ x mod numberOfThreads = threadID.
Proof.
  intros Hw. rewrite elem_of_counter_values by lia. split.
  - intros [Hx Hm]. split; [lia|].
    apply Z.mod_divide in Hm as [k Hk]; [|lia].
    replace x with (threadID + k * numberOfThreads) by lia.
    rewrite Z.mod_add by lia. apply Z.mod_small. lia.
  - intros [Hx Hm].
    pose proof (Z.div_mod x numberOfThreads ltac:(lia)) as Hdm.
    assert (0 <= x / numberOfThreads) by (apply Z.div_pos; lia).
    split; [nia|].
    replace (x - threadID) with (x / numberOfThreads * numberOfThreads) by lia.
    apply Z.mod_mul. lia.
Qed.

(** ** What a worker stores *)

Section FillFacts.
Variables (centerX centerY planeWidth planeHeight : float).
Variables (windowWidth windowHeight numIterations : Z).
Variable (C : @complex float).

Let pixel := fill_pixel centerX centerY planeWidth planeHeight
               windowWidth windowHeight numIterations C.
Let color := pixelColor centerX centerY planeWidth planeHeight
               windowWidth windowHeight numIterations C.
Let worker := worker_stores centerX centerY planeWidth planeHeight
                windowWidth windowHeight numIterations C.
Let fill := fun fuel => fillJuliaSet fuel centerX centerY planeWidth planeHeight
                          windowWidth windowHeight numIterations C.
Let data := fun fuel => dataList fuel centerX centerY planeWidth planeHeight
                          windowWidth windowHeight numIterations C.
Let packet := packets centerX centerY planeWidth planeHeight
                windowWidth windowHeight numIterations C.

(** The colour of a pixel does not depend on what an earlier pixel left in
    [stageEliminated]: the cell is read only after a store. *)
Lemma fill_pixel_stored (x y : Z) (s : fill_state) :
  stored (pixel x y s) = stored s ++ [Write x y (color x y)].
Proof.
  unfold pixel, color, fill_pixel, pixelColor, isInJuliaSet.
  destruct (isInJuliaSet_loop_outcome C (Z.to_nat numIterations) 0
              (radd (XTransform x centerX planeWidth windowWidth)
                 (rmul (YTransform y centerY planeHeight windowHeight) Complex_I))
              (radd (XTransform x centerX planeWidth windowWidth)
                 (rmul (YTransform y centerY planeHeight windowHeight) Complex_I)))
    as [Ht|[j [_ Hf]]].
  - now rewrite !Ht.
  - now rewrite !Hf.
Qed.

Lemma column_stored (x : Z) (ys : list Z) : forall s,
  stored (foldl (fun s y => pixel x y s) s ys)
  = stored s ++ ((fun y => Write x y (color x y)) <$> ys).
Proof.
  induction ys as [|y ys IH]; intros s; cbn.
  - now rewrite app_nil_r.
  - rewrite IH, fill_pixel_stored, <- app_assoc. reflexivity.
Qed.

Lemma columns_stored (xs ys : list Z) : forall s,
  stored (foldl (fun s x => foldl (fun s y => pixel x y s) s ys) s xs)
  = stored s ++ (x ← xs; (fun y => Write x y (color x y)) <$> ys).
Proof.
  induction xs as [|x xs IH]; intros s; cbn.
  - now rewrite app_nil_r.
  - rewrite IH, column_stored, <- app_assoc. reflexivity.
Qed.

(** With at least one worker, a window and a stride that keep the counters
    within [int], and enough fuel, [fillJuliaSet] completes and has stored
    the columns of its worker, each from top to bottom. *)
Lemma fillJuliaSet_stored (fuel : nat) (numberOfThreads threadID : Z) :
  0 < numberOfThreads -> 0 <= threadID ->
  windowWidth + numberOfThreads <= INT_MAX -> windowHeight <= INT_MAX ->
  (Z.to_nat (windowWidth - threadID) < fuel)%nat ->
  (Z.to_nat windowHeight < fuel)%nat ->
  stored <$> fill fuel numberOfThreads threadID
  = Some (worker numberOfThreads threadID).
Proof.
  intros Hn Hid HWmax HHmax HW HH. unfold fill, fillJuliaSet.
  rewrite (for_lt_total
             (fun x s => foldl (fun s y => pixel x y s) s (seqZ 0 windowHeight)));
    [| assumption | lia | unfold INT_MIN; lia | assumption |].
  - cbn. rewrite columns_stored. reflexivity.
  - intros x s Hx.
    rewrite (for_lt_total (fun y s => pixel x y s));
      [| lia | lia | unfold INT_MIN; lia | now rewrite Z.sub_0_r | reflexivity].
    now rewrite counter_values_seqZ.
Qed.

(** A worker whose first stride leaves the range of [int] has no defined
    outcome. *)
Lemma fillJuliaSet_overflow (fuel : nat) (numberOfThreads threadID : Z) :
  threadID < windowWidth -> INT_MAX < threadID + numberOfThreads ->
  fill fuel numberOfThreads threadID = None.
Proof. intros Hid Hn. now apply for_lt_overflow. Qed.

Lemma mapM_total {A B : Type} (g : A -> option B) (h : A -> B) (l : list A) :
  (forall x, x ∈ l -> g x = Some (h x)) -> mapM g l = Some (h <$> l).
Proof.
  induction l as [|x l IH]; intros Hl; [reflexivity|].
  cbn. rewrite Hl by left. cbn. rewrite IH; [reflexivity|].
  intros y Hy. apply Hl. now right.
Qed.

Lemma foldl_snoc_fmap {A B : Type} (h : A -> B) (l : list A) : forall s,
  foldl (fun s x => s ++ [h x]) s l = s ++ (h <$> l).
Proof.
  induction l as [|x l IH]; intros s; cbn.
  - now rewrite app_nil_r.
  - now rewrite IH, <- app_assoc.
Qed.

Lemma cast_int_id (k : Z) : INT_MIN <= k <= INT_MAX -> cast_int k = k.
Proof.
  unfold cast_int, INT_MIN, INT_MAX. intros Hk.
  rewrite Z.mod_small by lia. lia.
Qed.

(** For a number of threads within [int], and enough fuel, the loop of
    [main] prepares one packet per thread. *)
Lemma dataList_packets (fuel : nat) (numberOfThreads : Z) :
  numberOfThreads <= INT_MAX -> (Z.to_nat numberOfThreads < fuel)%nat ->
  data fuel numberOfThreads = Some (packet numberOfThreads).
Proof.
  intros Hn Hfuel. unfold data, dataList.
  rewrite (for_lt_total
             (fun threadID l =>
                l ++ [{| d_centerX := centerX; d_centerY := centerY;
                         d_planeWidth := planeWidth; d_planeHeight := planeHeight;
                         d_C := C; d_windowWidth := windowWidth;
                         d_windowHeight := windowHeight;
                         d_threadID := threadID;
                         d_numberOfThreads := cast_int numberOfThreads;
                         d_numIterations := numIterations |}]));
    [| lia | lia | unfold INT_MIN; lia | now rewrite Z.sub_0_r | reflexivity].
  now rewrite counter_values_seqZ, foldl_snoc_fmap.
Qed.

(** With counters within [int] and enough fuel every thread of [main]
    completes. *)
Lemma threadList_stored (fuel : nat) (numberOfThreads : Z) :
  windowWidth + numberOfThreads <= INT_MAX -> windowHeight <= INT_MAX ->
  numberOfThreads <= INT_MAX ->
  (Z.to_nat windowWidth < fuel)%nat -> (Z.to_nat windowHeight < fuel)%nat ->
  threadList fuel (packet numberOfThreads)
  = Some (worker numberOfThreads <$> seqZ 0 numberOfThreads).
Proof.
  intros HWmax HHmax Hn HW HH. unfold threadList, packet, packets.
  rewrite (mapM_total _ (fun d => worker (d_numberOfThreads d) (d_threadID d))).
  - rewrite <- list_fmap_compose. f_equal. apply list_fmap_ext.
    intros i w Hw. apply lookup_seqZ in Hw as [-> Hi]. cbn.
    rewrite cast_int_id; [reflexivity|unfold INT_MIN; lia].
  - intros d [w [-> Hw%elem_of_seqZ]]%list_elem_of_fmap. unfold partialFill; cbn.
    rewrite cast_int_id by (unfold INT_MIN; lia).
    apply fillJuliaSet_stored; [lia | lia | assumption | assumption | lia | assumption].
Qed.

(** The threads of a fill: the packets and the stores of the threads. *)
Lemma threads_stored (fuel : nat) (numberOfThreads : Z) :
  windowWidth + numberOfThreads <= INT_MAX -> windowHeight <= INT_MAX ->
  numberOfThreads <= INT_MAX ->
  (Z.to_nat windowWidth < fuel)%nat -> (Z.to_nat windowHeight < fuel)%nat ->
  (Z.to_nat numberOfThreads < fuel)%nat ->
  data fuel numberOfThreads ≫= threadList fuel
  = Some (worker numberOfThreads <$> seqZ 0 numberOfThreads).
Proof.
  intros HWmax HHmax Hn HW HH Hfn.
  rewrite dataList_packets by assumption. cbn [mbind option_bind].
  now apply threadList_stored.
Qed.

End FillFacts.

(** ** Counting the stores to a cell *)

Lemma writes_at_cons (x y : Z) (w : write) (ws : list write) :
  writes_at x y (w :: ws)
  = ((if decide (cell w = (x, y)) then 1 else 0) + writes_at x y ws)%nat.
Proof.
  unfold writes_at. rewrite filter_cons. now case_decide.
Qed.

(** When no cell is stored to twice, a cell is stored to once if it is
    stored to at all. *)
Lemma writes_at_NoDup (x y : Z) (ws : list write) :
  NoDup (cell <$> ws) ->
  writes_at x y ws = if decide ((x, y) ∈ cell <$> ws) then 1%nat else 0%nat.
Proof.
  induction ws as [|w ws IH]; intros Hnd.
  - rewrite decide_False; [reflexivity|]. intros H. inversion H.
  - rewrite fmap_cons in Hnd. apply NoDup_cons in Hnd as [Hw Hnd].
    rewrite writes_at_cons, IH by assumption. rewrite fmap_cons.
    destruct (decide (cell w = (x, y))) as [Heq|Hne].
    + rewrite Heq in Hw. rewrite decide_False by assumption.
      rewrite decide_True; [reflexivity|]. rewrite Heq. now left.
    + apply decide_ext. rewrite elem_of_cons. intuition congruence.
Qed.

Section FillCounts.
Variables (centerX centerY planeWidth planeHeight : float).
Variables (windowWidth windowHeight numIterations : Z).
Variable (C : @complex float).

Let color := pixelColor centerX centerY planeWidth planeHeight
               windowWidth windowHeight numIterations C.
Let worker := worker_stores centerX centerY planeWidth planeHeight
                windowWidth windowHeight numIterations C.

(** Every store of a worker carries the colour of its pixel. *)
Lemma worker_colour (numberOfThreads threadID : Z) (w : write) :
  w ∈ worker numberOfThreads threadID -> colour w = color (at_x w) (at_y w).
Proof.
  unfold worker, worker_stores. rewrite list_elem_of_bind.
  intros [x [Hw _]]. apply list_elem_of_fmap in Hw as [y [-> _]]. reflexivity.
Qed.

Lemma worker_cells (numberOfThreads threadID : Z) :
  cell <$> worker numberOfThreads threadID
  = x ← counter_values threadID windowWidth numberOfThreads;
    (fun y => (x, y)) <$> seqZ 0 windowHeight.
Proof.
  unfold worker, worker_stores.
  induction (counter_values threadID windowWidth numberOfThreads) as [|x xs IH];
    [reflexivity|].
  rewrite !bind_cons, fmap_app, IH. f_equal. now rewrite <- list_fmap_compose.
Qed.

(** A worker with an index below the worker count stores to the cells of the
    grid in the columns congruent to its index, and to no others. *)
Lemma elem_of_worker_cells (x y numberOfThreads threadID : Z) :
  0 <= threadID < numberOfThreads ->
  (x, y) ∈ cell <$> worker numberOfThreads threadID
  <-> 0 <= x < windowWidth /\ 0 <= y < windowHeight /\
      x mod numberOfThreads = threadID.
Proof.
  intros Hw. rewrite worker_cells, list_elem_of_bind. split.
  - intros [x' [Hy Hx]].
    apply list_elem_of_fmap in Hy as [y' [[= -> ->] Hy]].
    apply elem_of_worker_columns in Hx; [|assumption].
    apply elem_of_seqZ in Hy. lia.
  - intros (Hx & Hy & Hm). exists x. split.
    + apply list_elem_of_fmap. exists y. split; [reflexivity|].
      apply elem_of_seqZ. lia.
    + apply elem_of_worker_columns; [assumption|]. now split.
Qed.

Lemma NoDup_worker_cells (numberOfThreads threadID : Z) :
  0 < numberOfThreads -> NoDup (cell <$> worker numberOfThreads threadID).
Proof.
  intros Hn. rewrite worker_cells. apply NoDup_bind.
  - intros x1 x2 c _ _ [y1 [-> _]]%list_elem_of_fmap [y2 [[= -> _] _]]%list_elem_of_fmap.
    reflexivity.
  - intros x _. apply NoDup_fmap_2; [|apply NoDup_seqZ].
    intros y1 y2 [= ->]. reflexivity.
  - now apply NoDup_counter_values.
Qed.

Lemma writes_at_worker (x y numberOfThreads threadID : Z) :
  0 <= threadID < numberOfThreads ->
  writes_at x y (worker numberOfThreads threadID)
  = if decide (0 <= x < windowWidth /\ 0 <= y < windowHeight /\
               x mod numberOfThreads = threadID)
    then 1%nat else 0%nat.
Proof.
  intros Hw. rewrite writes_at_NoDup by (apply NoDup_worker_cells; lia).
  apply decide_ext. now apply elem_of_worker_cells.
Qed.

(** The cells of several workers together. *)
Lemma elem_of_workers_cells (x y numberOfThreads : Z) (ids : list Z) :
  (forall w, w ∈ ids -> 0 <= w < numberOfThreads) ->
  (x, y) ∈ cell <$> concat (worker numberOfThreads <$> ids)
  <-> 0 <= x < windowWidth /\ 0 <= y < windowHeight /\
      x mod numberOfThreads ∈ ids.
Proof.
  induction ids as [|w ids IH]; intros Hrange.
  - split; [intros H; inversion H|intros (_ & _ & H); inversion H].
  - rewrite fmap_cons, concat_cons, fmap_app, elem_of_app, elem_of_cons.
    rewrite elem_of_worker_cells by (apply Hrange; now left).
    rewrite IH by (intros w' Hw'; apply Hrange; now right).
    tauto.
Qed.

(** Distinct workers store to distinct cells. *)
Lemma NoDup_workers_cells (numberOfThreads : Z) (ids : list Z) :
  NoDup ids -> (forall w, w ∈ ids -> 0 <= w < numberOfThreads) ->
  NoDup (cell <$> concat (worker numberOfThreads <$> ids)).
Proof.
  induction 1 as [|w ids Hw Hids IH]; intros Hrange; [constructor|].
  assert (Hw0 : 0 <= w < numberOfThreads) by (apply Hrange; now left).
  assert (Hrest : forall w', w' ∈ ids -> 0 <= w' < numberOfThreads)
    by (intros w' Hw'; apply Hrange; now right).
  rewrite fmap_cons, concat_cons, fmap_app. apply NoDup_app. split; [|split].
  - apply NoDup_worker_cells. lia.
  - intros [x y] Hc Hc'.
    apply elem_of_worker_cells in Hc as (_ & _ & Hm); [|assumption].
    apply elem_of_workers_cells in Hc' as (_ & _ & Hm'); [|assumption].
    rewrite Hm in Hm'. contradiction.
  - now apply IH.
Qed.

Lemma writes_at_workers (x y numberOfThreads : Z) (ids : list Z) :
  NoDup ids -> (forall w, w ∈ ids -> 0 <= w < numberOfThreads) ->
  writes_at x y (concat (worker numberOfThreads <$> ids))
  = if decide (0 <= x < windowWidth /\ 0 <= y < windowHeight /\
               x mod numberOfThreads ∈ ids)
    then 1%nat else 0%nat.
Proof.
  intros Hids Hrange. rewrite writes_at_NoDup by now apply NoDup_workers_cells.
  apply decide_ext. now apply elem_of_workers_cells.
Qed.

End FillCounts.

(** ** Interleaved threads and the colour map *)

Lemma concat_all_nil {A : Type} (threads : list (list A)) :
  Forall (fun t => t = []) threads -> concat threads = [].
Proof.
  induction 1 as [|t threads -> _ IH]; [reflexivity|]. exact IH.
Qed.

(** An interleaving performs every store of every thread once. *)
Lemma interleaving_Permutation {A : Type} (threads : list (list A)) (out : list A) :
  interleaving threads out -> out ≡ₚ concat threads.
Proof.
  induction 1 as [threads Hnil|threads i a t out Hi _ IH].
  - now rewrite concat_all_nil.
  - rewrite IH.
    rewrite <- (take_drop_middle threads i (a :: t) Hi) at 2.
    rewrite insert_take_drop by (eapply lookup_lt_Some; eassumption).
    rewrite !concat_app, !concat_cons.
    rewrite <- app_comm_cons. apply Permutation_middle.
Qed.

(** Running the threads one after the other is an interleaving. *)
Lemma interleaving_sequential {A : Type} (threads : list (list A)) :
  interleaving threads (concat threads).
Proof.
  enough (H : forall done, Forall (fun t => t = []) done ->
                interleaving (done ++ threads) (concat threads))
    by (apply (H []); constructor).
  induction threads as [|t threads IH]; intros done Hdone.
  - rewrite app_nil_r. now constructor.
  - induction t as [|a t IHt].
    + replace (done ++ [] :: threads) with ((done ++ [[]]) ++ threads)
        by now rewrite <- app_assoc.
      apply IH. apply Forall_app. split; [assumption|]. now repeat constructor.
    + cbn [concat app]. apply interleaving_step with (i := length done) (t := t).
      * now rewrite list_lookup_middle.
      * rewrite insert_app_r_alt, Nat.sub_diag by lia. exact IHt.
Qed.

(** When every store to a cell carries the same colour, the colour map ends
    with that colour in each cell stored to, and is unchanged elsewhere. *)
Lemma performAll_lookup (color : Z * Z -> SDL_Color) (ws : list write) :
  (forall w, w ∈ ws -> colour w = color (cell w)) ->
  forall (colorMap : gmap (Z * Z) SDL_Color) (c : Z * Z),
  performAll colorMap ws !! c
  = if decide (c ∈ cell <$> ws) then Some (color c) else colorMap !! c.
Proof.
  induction ws as [|w ws IH]; intros Hws colorMap c.
  - rewrite decide_False; [reflexivity|]. intros H. inversion H.
  - cbn [performAll foldl]. fold (performAll (perform colorMap w) ws).
    rewrite IH by (intros w' Hw'; apply Hws; now right).
    rewrite fmap_cons.
    destruct (decide (c ∈ cell <$> ws)) as [Hin|Hout].
    + rewrite decide_True; [reflexivity|]. now right.
    + unfold perform. destruct (decide (cell w = c)) as [<-|Hne].
      * rewrite lookup_insert_eq, decide_True by now left.
        now rewrite Hws by now left.
      * rewrite lookup_insert_ne by assumption.
        rewrite decide_False; [reflexivity|].
        rewrite elem_of_cons. intros [->|?]; contradiction.
Qed.

Section FillClaims.
Variables (centerX centerY planeWidth planeHeight : float).
Variables (windowWidth windowHeight numIterations : Z).
Variable (C : @complex float).

Let color := pixelColor centerX centerY planeWidth planeHeight
               windowWidth windowHeight numIterations C.
Let worker := worker_stores centerX centerY planeWidth planeHeight
                windowWidth windowHeight numIterations C.

(** After the threads of a fill with at least one worker are joined, the
    colour map holds the colour of each pixel of the grid, whatever the
    interleaving, and is untouched outside the grid. *)
Lemma joined_colorMap (numberOfThreads : Z) (schedule : list write)
    (colorMap : gmap (Z * Z) SDL_Color) (x y : Z) :
  1 <= numberOfThreads ->
  interleaving (worker numberOfThreads <$> seqZ 0 numberOfThreads) schedule ->
  performAll colorMap schedule !! (x, y)
  = if decide (0 <= x < windowWidth /\ 0 <= y < windowHeight)
    then Some (color x y) else colorMap !! (x, y).
Proof.
  intros Hn Hsched. apply interleaving_Permutation in Hsched.
  assert (Hids : forall w, w ∈ seqZ 0 numberOfThreads -> 0 <= w < numberOfThreads)
    by (intros w Hw%elem_of_seqZ; lia).
  rewrite (performAll_lookup (fun c => color c.1 c.2)).
  - apply decide_ext. rewrite Hsched. unfold worker.
    rewrite (elem_of_workers_cells _ _ _ _ _ _ _ _ x y numberOfThreads _ Hids).
    rewrite elem_of_seqZ.
    pose proof (Z.mod_pos_bound x numberOfThreads ltac:(lia)). intuition lia.
  - intros w Hw. rewrite Hsched in Hw.
    apply list_elem_of_In, in_concat in Hw as [t [Ht Hw]].
    apply list_elem_of_In in Ht, Hw.
    apply list_elem_of_fmap in Ht as [id [-> _]].
    eapply worker_colour. exact Hw.
Qed.

End FillClaims.

(** ** The fill: the properties of the specification *)

Lemma threads_lookup (centerX centerY planeWidth planeHeight : float)
    (windowWidth windowHeight numIterations : Z) (C : @complex float)
    (numberOfThreads : Z) (w : nat) (stores : list write) :
  (worker_stores centerX centerY planeWidth planeHeight windowWidth windowHeight
     numIterations C numberOfThreads <$> seqZ 0 numberOfThreads) !! w = Some stores ->
  0 <= Z.of_nat w < numberOfThreads /\
  stores = worker_stores centerX centerY planeWidth planeHeight windowWidth
             windowHeight numIterations C numberOfThreads (Z.of_nat w).
Proof.
  rewrite list_lookup_fmap. intros H.
  apply fmap_Some in H as [id [Hid ->]].
  apply lookup_seqZ in Hid as [-> Hw]. split; [lia|]. f_equal; lia.
Qed.

(** C3.  For a worker count of at least 1 and a grid of positive width and
    height, with [windowWidth + numberOfThreads] and [windowHeight] within
    the range of [int] (the counters of the fill are ints), given enough
    fuel every thread of the fill completes, and together the threads store
    to every cell (x, y) of the grid exactly once.  Thread [w], which runs [fillJuliaSet] with [threadID = w], stores
    once to the cells of the grid in the columns x with
    [x mod numberOfThreads = w] and to no other cell, so that distinct
    threads store to disjoint sets of cells; a thread without such a column
    stores nothing. *)
Theorem column_striped_coverage
    (centerX centerY planeWidth planeHeight : float)
    (windowWidth windowHeight numIterations : Z) (C : @complex float)
    (numberOfThreads : Z) (fuel : nat) :
  1 <= numberOfThreads -> 0 < windowWidth -> 0 < windowHeight ->
  windowWidth + numberOfThreads <= INT_MAX -> windowHeight <= INT_MAX ->
  (Z.to_nat windowWidth < fuel)%nat -> (Z.to_nat windowHeight < fuel)%nat ->
  (Z.to_nat numberOfThreads < fuel)%nat ->
  exists threads : list (list write),
    dataList fuel centerX centerY planeWidth planeHeight windowWidth windowHeight
      numIterations C numberOfThreads
    ≫= threadList fuel
    = Some threads /\
    length threads = Z.to_nat numberOfThreads /\
    (forall x y, 0 <= x < windowWidth -> 0 <= y < windowHeight ->
       writes_at x y (concat threads) = 1%nat) /\
    (forall (w : nat) (stores : list write), threads !! w = Some stores ->
       stored <$>
         fillJuliaSet fuel centerX centerY planeWidth planeHeight windowWidth
           windowHeight numIterations C numberOfThreads (Z.of_nat w)
       = Some stores /\
       (forall x y,
          writes_at x y stores
          = if decide (0 <= x < windowWidth /\ 0 <= y < windowHeight /\
                       x mod numberOfThreads = Z.of_nat w)
            then 1%nat else 0%nat) /\
       ((forall x, 0 <= x < windowWidth -> x mod numberOfThreads <> Z.of_nat w) ->
        stores = [])) /\
    (forall (w1 w2 : nat) (stores1 stores2 : list write) (c : Z * Z),
       w1 <> w2 -> threads !! w1 = Some stores1 -> threads !! w2 = Some stores2 ->
       c ∈ cell <$> stores1 -> c ∉ cell <$> stores2).
Proof.
  intros Hn HW HH HWmax HHmax HfW HfH Hfn.
  eexists. split; [apply threads_stored; first [assumption|lia]|].
  split; [now rewrite length_fmap, length_seqZ|]. split; [|split].
  - intros x y Hx Hy.
    rewrite writes_at_workers;
      [|apply NoDup_seqZ|intros w Hw%elem_of_seqZ; lia].
    rewrite decide_True; [reflexivity|].
    pose proof (Z.mod_pos_bound x numberOfThreads ltac:(lia)).
    repeat split; try lia. apply elem_of_seqZ. lia.
  - intros w stores Hw. apply threads_lookup in Hw as [Hw ->].
    split; [|split].
    + apply fillJuliaSet_stored; first [assumption|lia].
    + intros x y. now apply writes_at_worker.
    + intros Hnone. unfold worker_stores.
      destruct (counter_values (Z.of_nat w) windowWidth numberOfThreads)
        as [|x xs] eqn:Hcols; [reflexivity|].
      exfalso. assert (Hx : x ∈ counter_values (Z.of_nat w) windowWidth numberOfThreads)
        by (rewrite Hcols; now left).
      apply elem_of_worker_columns in Hx as [Hx Hm]; [|assumption].
      exact (Hnone x Hx Hm).
  - intros w1 w2 stores1 stores2 [x y] Hne H1 H2 Hc1 Hc2.
    apply threads_lookup in H1 as [Hw1 ->]. apply threads_lookup in H2 as [Hw2 ->].
    apply elem_of_worker_cells in Hc1 as (_ & _ & Hm1); [|assumption].
    apply elem_of_worker_cells in Hc2 as (_ & _ & Hm2); [|assumption].
    lia.
Qed.

Lemma column_striped_coverage_witness :
  1 <= 5 /\ 0 < 4 /\ 0 < 3 /\ 4 + 5 <= INT_MAX /\ 3 <= INT_MAX /\
  (Z.to_nat 4 < 6)%nat /\ (Z.to_nat 3 < 6)%nat /\ (Z.to_nat 5 < 6)%nat /\
  exists threads : list (list write),
    dataList 6 0 0 4 3 4 3 100 (0.285, 0.01)%float 5 ≫= threadList 6
    = Some threads /\
    length threads = Z.to_nat 5 /\
    (forall x y, 0 <= x < 4 -> 0 <= y < 3 -> writes_at x y (concat threads) = 1%nat).
Proof.
  assert (Hn : 1 <= 5) by lia.
  assert (HW : 0 < 4) by lia.
  assert (HH : 0 < 3) by lia.
  assert (HWmax : 4 + 5 <= INT_MAX) by (unfold INT_MAX; lia).
  assert (HHmax : 3 <= INT_MAX) by (unfold INT_MAX; lia).
  assert (HfW : (Z.to_nat 4 < 6)%nat) by (cbn; lia).
  assert (HfH : (Z.to_nat 3 < 6)%nat) by (cbn; lia).
  assert (Hfn : (Z.to_nat 5 < 6)%nat) by (cbn; lia).
  refine (conj Hn (conj HW (conj HH (conj HWmax (conj HHmax
           (conj HfW (conj HfH (conj Hfn _)))))))).
  destruct (column_striped_coverage 0 0 4 3 4 3 100 (0.285, 0.01)%float 5 6
              Hn HW HH HWmax HHmax HfW HfH Hfn)
    as [threads (Hrun & Hlen & Honce & _ & _)].
  exists threads. exact (conj Hrun (conj Hlen Honce)).
Defined.

(** C2.  For a fixed viewport, constant and iteration bound, with
    [windowWidth + numberOfThreads] and [windowHeight] within the range of
    [int] (the counters of the fill are ints), and given enough fuel, the
    threads of a fill with one worker and of a fill with any worker count of
    at least 1 all complete (each thread [w] running [fillJuliaSet] with
    [threadID = w]), and whatever the interleaving of the threads' stores,
    the two fills leave the same colour map. *)
Theorem worker_count_determinism
    (centerX centerY planeWidth planeHeight : float)
    (windowWidth windowHeight numIterations : Z) (C : @complex float)
    (numberOfThreads : Z) (fuel : nat) (colorMap : gmap (Z * Z) SDL_Color) :
  1 <= numberOfThreads -> numberOfThreads <= INT_MAX ->
  windowWidth + numberOfThreads <= INT_MAX -> windowHeight <= INT_MAX ->
  (Z.to_nat windowWidth < fuel)%nat -> (Z.to_nat windowHeight < fuel)%nat ->
  (Z.to_nat numberOfThreads < fuel)%nat ->
  exists one many : list (list write),
    dataList fuel centerX centerY planeWidth planeHeight windowWidth windowHeight
      numIterations C 1
    ≫= threadList fuel
    = Some one /\
    dataList fuel centerX centerY planeWidth planeHeight windowWidth windowHeight
      numIterations C numberOfThreads
    ≫= threadList fuel
    = Some many /\
    forall schedule1 scheduleN : list write,
      interleaving one schedule1 -> interleaving many scheduleN ->
      performAll colorMap schedule1 = performAll colorMap scheduleN.
Proof.
  intros Hn Hnmax HWmax HHmax HfW HfH Hfn.
  eexists. eexists.
  split; [apply threads_stored; first [assumption|unfold INT_MAX in *; lia]|].
  split; [now apply threads_stored|].
  intros schedule1 scheduleN H1 HN. apply map_eq. intros [x y].
  rewrite (joined_colorMap centerX centerY planeWidth planeHeight windowWidth
             windowHeight numIterations C 1 schedule1 colorMap x y ltac:(lia) H1).
  now rewrite (joined_colorMap centerX centerY planeWidth planeHeight windowWidth
                 windowHeight numIterations C numberOfThreads scheduleN colorMap x y Hn HN).
Qed.

Lemma worker_count_determinism_witness :
  1 <= 3 /\ 3 <= INT_MAX /\ 4 + 3 <= INT_MAX /\ 3 <= INT_MAX /\
  (Z.to_nat 4 < 6)%nat /\ (Z.to_nat 3 < 6)%nat /\ (Z.to_nat 3 < 6)%nat /\
  exists one many : list (list write),
    dataList 6 0 0 4 3 4 3 100 (0.285, 0.01)%float 1 ≫= threadList 6 = Some one /\
    dataList 6 0 0 4 3 4 3 100 (0.285, 0.01)%float 3 ≫= threadList 6 = Some many /\
    performAll ∅ (concat one) = performAll ∅ (concat many).
Proof.
  assert (Hn : 1 <= 3) by lia.
  assert (Hnmax : 3 <= INT_MAX) by (unfold INT_MAX; lia).
  assert (HWmax : 4 + 3 <= INT_MAX) by (unfold INT_MAX; lia).
  assert (HfW : (Z.to_nat 4 < 6)%nat) by (cbn; lia).
  assert (HfH : (Z.to_nat 3 < 6)%nat) by (cbn; lia).
  refine (conj Hn (conj Hnmax (conj HWmax (conj Hnmax (conj HfW (conj HfH (conj HfH _))))))).
  destruct (worker_count_determinism 0 0 4 3 4 3 100 (0.285, 0.01)%float 3 6 ∅
              Hn Hnmax HWmax Hnmax HfW HfH HfH) as [one [many (H1 & HN & Hsame)]].
  exists one, many.
  exact (conj H1 (conj HN (Hsame _ _ (interleaving_sequential one)
                             (interleaving_sequential many)))).
Defined.

(** ** Further properties of the specification *)

(** X1.  Fixed-point membership: with Z = 0 and C = 0 the orbit is constantly 0
    and the point is classified as in the set, for every bound. *)
Theorem origin_is_in_the_set (numIterations : Z) (st : int_buffer) :
  isInJuliaSet (0, 0)%float (0, 0)%float numIterations st = (true, st).
Proof.
  unfold isInJuliaSet. destruct (Z.to_nat numIterations) as [|rem]; [reflexivity|].
  change (0, 0)%float with (orbit (0, 0)%float (0, 0)%float 0) at 2 3.
  rewrite isInJuliaSet_loop_pass.
  replace (escapes (0, 0)%float (0, 0)%float 0) with false by (vm_compute; reflexivity).
  now replace (repeats (0, 0)%float (0, 0)%float 0) with true by (vm_compute; reflexivity).
Qed.

(** X2.  Full population: with [windowWidth + numberOfThreads] and
    [windowHeight] within the range of [int], once the threads of a fill
    with at least one worker are joined, every cell of the grid holds the
    colour of its pixel, whatever the interleaving and whatever the cell
    held before, and no cell outside the grid has been stored to. *)
Theorem fill_populates_the_grid
    (centerX centerY planeWidth planeHeight : float)
    (windowWidth windowHeight numIterations : Z) (C : @complex float)
    (numberOfThreads : Z) (fuel : nat) (colorMap : gmap (Z * Z) SDL_Color) :
  1 <= numberOfThreads -> numberOfThreads <= INT_MAX ->
  windowWidth + numberOfThreads <= INT_MAX -> windowHeight <= INT_MAX ->
  (Z.to_nat windowWidth < fuel)%nat -> (Z.to_nat windowHeight < fuel)%nat ->
  (Z.to_nat numberOfThreads < fuel)%nat ->
  exists threads : list (list write),
    dataList fuel centerX centerY planeWidth planeHeight windowWidth windowHeight
      numIterations C numberOfThreads
    ≫= threadList fuel
    = Some threads /\
    forall schedule : list write, interleaving threads schedule ->
    forall x y,
      performAll colorMap schedule !! (x, y)
      = if decide (0 <= x < windowWidth /\ 0 <= y < windowHeight)
        then Some (pixelColor centerX centerY planeWidth planeHeight windowWidth
                     windowHeight numIterations C x y)
        else colorMap !! (x, y).
Proof.
  intros Hn Hnmax HWmax HHmax HfW HfH Hfn.
  eexists. split; [now apply threads_stored|].
  intros schedule Hs x y.
  exact (joined_colorMap centerX centerY planeWidth planeHeight windowWidth
           windowHeight numIterations C numberOfThreads schedule colorMap x y Hn Hs).
Qed.

Lemma fill_populates_the_grid_witness :
  1 <= 2 /\ 2 <= INT_MAX /\ 4 + 2 <= INT_MAX /\ 3 <= INT_MAX /\
  (Z.to_nat 4 < 6)%nat /\ (Z.to_nat 3 < 6)%nat /\ (Z.to_nat 2 < 6)%nat /\
  exists threads : list (list write),
    dataList 6 0 0 4 3 4 3 100 (0.285, 0.01)%float 2 ≫= threadList 6
    = Some threads /\
    performAll ∅ (concat threads) !! (2, 1)
    = Some (pixelColor 0 0 4 3 4 3 100 (0.285, 0.01)%float 2 1).
Proof.
  assert (Hn : 1 <= 2) by lia.
  assert (Hnmax : 2 <= INT_MAX) by (unfold INT_MAX; lia).
  assert (HWmax : 4 + 2 <= INT_MAX) by (unfold INT_MAX; lia).
  assert (HHmax : 3 <= INT_MAX) by (unfold INT_MAX; lia).
  assert (HfW : (Z.to_nat 4 < 6)%nat) by (cbn; lia).
  assert (HfH : (Z.to_nat 3 < 6)%nat) by (cbn; lia).
  assert (Hfn : (Z.to_nat 2 < 6)%nat) by (cbn; lia).
  refine (conj Hn (conj Hnmax (conj HWmax (conj HHmax (conj HfW (conj HfH (conj Hfn _))))))).
  destruct (fill_populates_the_grid 0 0 4 3 4 3 100 (0.285, 0.01)%float 2 6 ∅
              Hn Hnmax HWmax HHmax HfW HfH Hfn) as [threads [Hrun Hmap]].
  exists threads.
  exact (conj Hrun (Hmap _ (interleaving_sequential threads) 2 1)).
Defined.

(** ** Further properties of the evaluator *)

Section EvaluatorBounds.
Context {D : Type} {ops : Double D}.

(** A loop that answers [false] answers the same with more passes left. *)
Lemma isInJuliaSet_loop_more (C : @complex D) : forall rem rem' i prevZ currentZ st b,
  (rem <= rem')%nat ->
  isInJuliaSet_loop rem i C prevZ currentZ st = (false, b) ->
  isInJuliaSet_loop rem' i C prevZ currentZ st = (false, b).
Proof.
  induction rem as [|rem IH]; intros rem' i prevZ currentZ st b Hle; [discriminate|].
  destruct rem' as [|rem']; [lia|].
  cbn [isInJuliaSet_loop].
  destruct (dgt _ _); [easy|].
  destruct (ceq _ _); [easy|].
  apply IH. lia.
Qed.

End EvaluatorBounds.

(** X3.  The elimination stage does not depend on the iteration bound: when
    [isInJuliaSet] eliminates a point under the bound [numIterations], the
    stage it stores lies in 0 .. numIterations - 1, and under every larger
    bound it eliminates the point again and stores the same stage. *)
Theorem elimination_stage_independent_of_bound {D : Type} {ops : Double D}
    (z C : @complex D) (numIterations larger : Z) (st : int_buffer) :
  numIterations <= larger ->
  fst (isInJuliaSet z C numIterations st) = false ->
  0 <= held (snd (isInJuliaSet z C numIterations st)) < numIterations /\
  isInJuliaSet z C larger st = isInJuliaSet z C numIterations st.
Proof.
  intros Hle Hf. split.
  - unfold isInJuliaSet in *.
    destruct (isInJuliaSet_loop_outcome C (Z.to_nat numIterations) 0 z z)
      as [Ht|[j [Hj Hs]]].
    + rewrite Ht in Hf. discriminate.
    + rewrite Hs. cbn. lia.
  - destruct (isInJuliaSet z C numIterations st) as [r b] eqn:Hr.
    cbn in Hf. subst r. unfold isInJuliaSet in *.
    apply isInJuliaSet_loop_more with (rem := Z.to_nat numIterations); [lia|exact Hr].
Qed.

Lemma elimination_stage_independent_of_bound_witness :
  2 <= 100 /\
  fst (isInJuliaSet (1.2, 0)%float (0, 0)%float 2 fresh_buffer) = false /\
  0 <= held (snd (isInJuliaSet (1.2, 0)%float (0, 0)%float 2 fresh_buffer)) < 2 /\
  isInJuliaSet (1.2, 0)%float (0, 0)%float 100 fresh_buffer
  = isInJuliaSet (1.2, 0)%float (0, 0)%float 2 fresh_buffer.
Proof.
  assert (Hle : 2 <= 100) by lia.
  assert (Hf : fst (isInJuliaSet (1.2, 0)%float (0, 0)%float 2 fresh_buffer) = false)
    by (vm_compute; reflexivity).
  exact (conj Hle (conj Hf
           (elimination_stage_independent_of_bound
              (1.2, 0)%float (0, 0)%float 2 100 fresh_buffer Hle Hf))).
Defined.

(** Negating both factors leaves a product of doubles as it is. *)
Lemma SFmul_opp_opp (a b : spec_float) :
  SFmul prec emax (SFopp a) (SFopp b) = SFmul prec emax a b.
Proof.
  destruct a as [sa|sa| |sa ma ea], b as [sb|sb| |sb mb eb]; try reflexivity;
    destruct sa, sb; reflexivity.
Qed.

Lemma mul_opp_opp (x y : float) : (- x * - y = x * y)%float.
Proof.
  apply Prim2SF_inj.
  rewrite !FloatAxioms.mul_spec, !FloatAxioms.opp_spec. apply SFmul_opp_opp.
Qed.

Lemma f_cneg (z C : @complex float) : f (cneg z) C = f z C.
Proof.
  unfold f, cadd, cmul, cneg, creal, cimag; cbn.
  now rewrite !mul_opp_opp.
Qed.

(** X4.  The image is symmetric about the origin: on the doubles of the
    program, [isInJuliaSet] gives a point and its opposite the same answer
    and the same elimination stage, for every constant and bound. *)
Theorem opposite_points_classified_alike
    (z C : @complex float) (numIterations : Z) (st : int_buffer) :
  isInJuliaSet (cneg z) C numIterations st = isInJuliaSet z C numIterations st.
Proof.
  unfold isInJuliaSet. rewrite !isInJuliaSet_loop_escapeTime.
  destruct (Z.to_nat numIterations) as [|rem]; [reflexivity|].
  cbn [escapeTime_loop]. now rewrite f_cneg.
Qed.

(** ** Further properties of the colour policy *)

(** X5.  The colour tells the stage: for stages from 0 to 153, two stages
    with the same out-of-set colour are the same stage, and no out-of-set
    colour is the in-set colour. *)
Theorem colour_determines_stage (s1 s2 : Z) :
  0 <= s1 <= 153 -> 0 <= s2 <= 153 ->
  (colorOutOfSet s1 = colorOutOfSet s2 -> s1 = s2) /\
  colorOutOfSet s1 <> colorInSet.
Proof.
  intros H1 H2.
  assert (Hred : forall s, 0 <= s <= 153 -> SDL.r (colorOutOfSet s) = 10 + 8 * s / 5).
  { intros s Hs. pose proof (channels_up_to_153 s Hs) as H.
    unfold channels_as_computed in H.
    repeat (apply andb_prop in H as [H ?]).
    now apply Z.eqb_eq. }
  split.
  - intros Heq. apply (f_equal SDL.r) in Heq.
    rewrite !Hred in Heq by assumption.
    pose proof (Z.div_mod (8 * s1) 5 ltac:(lia)).
    pose proof (Z.div_mod (8 * s2) 5 ltac:(lia)).
    pose proof (Z.mod_pos_bound (8 * s1) 5 ltac:(lia)).
    pose proof (Z.mod_pos_bound (8 * s2) 5 ltac:(lia)).
    lia.
  - intros Heq. apply (f_equal SDL.r) in Heq.
    rewrite Hred in Heq by assumption.
    change (SDL.r colorInSet) with 0 in Heq.
    assert (0 <= 8 * s1 / 5) by (apply Z.div_pos; lia).
    lia.
Qed.

Lemma colour_determines_stage_witness :
  0 <= 98 <= 153 /\ 0 <= 99 <= 153 /\ colorOutOfSet 98 <> colorInSet.
Proof.
  assert (H1 : 0 <= 98 <= 153) by lia.
  assert (H2 : 0 <= 99 <= 153) by lia.
  exact (conj H1 (conj H2 (proj2 (colour_determines_stage 98 99 H1 H2)))).
Defined.

(** ** Not-a-number operands *)

Lemma is_nan_spec (x : float) : is_nan x = true <-> Prim2SF x = S754_nan.
Proof.
  unfold is_nan. rewrite FloatAxioms.eqb_spec. unfold SFeqb.
  destruct (Prim2SF x) as [s|s| |s m e]; cbn.
  - destruct s; split; discriminate.
  - destruct s; split; discriminate.
  - split; reflexivity.
  - destruct s; rewrite Z.compare_refl, Pos.compare_cont_refl; cbn; split; discriminate.
Qed.

Lemma nan_mul_l (x y : float) : is_nan x = true -> is_nan (x * y)%float = true.
Proof.
  rewrite !is_nan_spec, FloatAxioms.mul_spec. intros ->.
  now destruct (Prim2SF y).
Qed.

Lemma nan_mul_r (x y : float) : is_nan y = true -> is_nan (x * y)%float = true.
Proof.
  rewrite !is_nan_spec, FloatAxioms.mul_spec. intros ->.
  now destruct (Prim2SF x).
Qed.

Lemma nan_add_l (x y : float) : is_nan x = true -> is_nan (x + y)%float = true.
Proof.
  rewrite !is_nan_spec, FloatAxioms.add_spec. intros ->.
  now destruct (Prim2SF y).
Qed.

Lemma nan_add_r (x y : float) : is_nan y = true -> is_nan (x + y)%float = true.
Proof.
  rewrite !is_nan_spec, FloatAxioms.add_spec. intros ->.
  now destruct (Prim2SF x).
Qed.

Lemma nan_sub_l (x y : float) : is_nan x = true -> is_nan (x - y)%float = true.
Proof.
  rewrite !is_nan_spec, FloatAxioms.sub_spec. intros ->.
  now destruct (Prim2SF y).
Qed.

Lemma nan_sub_r (x y : float) : is_nan y = true -> is_nan (x - y)%float = true.
Proof.
  rewrite !is_nan_spec, FloatAxioms.sub_spec. intros ->.
  now destruct (Prim2SF x).
Qed.

Lemma nan_sqrt (x : float) : is_nan x = true -> is_nan (PrimFloat.sqrt x) = true.
Proof. rewrite !is_nan_spec, FloatAxioms.sqrt_spec. now intros ->. Qed.

Lemma nan_ltb_r (x y : float) : is_nan y = true -> (x <? y)%float = false.
Proof.
  rewrite is_nan_spec, FloatAxioms.ltb_spec. intros ->. unfold SFltb.
  now destruct (Prim2SF x).
Qed.

Lemma nan_leb_l (x y : float) : is_nan x = true -> (x <=? y)%float = false.
Proof. rewrite is_nan_spec, FloatAxioms.leb_spec. now intros ->. Qed.

Lemma nan_eqb_l (x y : float) : is_nan x = true -> (x =? y)%float = false.
Proof. rewrite is_nan_spec, FloatAxioms.eqb_spec. now intros ->. Qed.

(** A double that does not compare less than or equal to zero is greater
    than zero or not a number. *)
Lemma not_leb_zero (x : float) :
  (x <=? 0)%float = false -> (0 <? x)%float = true \/ is_nan x = true.
Proof.
  unfold is_nan.
  rewrite FloatAxioms.leb_spec, FloatAxioms.ltb_spec, FloatAxioms.eqb_spec.
  change (Prim2SF 0) with (S754_zero false).
  destruct (Prim2SF x) as [s|s| |s m e]; cbn; try destruct s; cbn; auto; discriminate.
Qed.

(** One pass on a point with a part that is not a number leaves both parts
    so. *)
Lemma f_nan (z C : @complex float) :
  is_nan (creal z) = true \/ is_nan (cimag z) = true ->
  is_nan (creal (f z C)) = true /\ is_nan (cimag (f z C)) = true.
Proof.
  destruct z as [a b]. unfold f, cadd, cmul, creal, cimag; cbn.
  intros [H|H]; split; apply nan_add_l.
  - now apply nan_sub_l, nan_mul_l.
  - now apply nan_add_l, nan_mul_l.
  - now apply nan_sub_r, nan_mul_r.
  - now apply nan_add_l, nan_mul_r.
Qed.

Lemma isInJuliaSet_loop_nan (C : @complex float) : forall rem i prevZ currentZ st,
  is_nan (creal currentZ) = true \/ is_nan (cimag currentZ) = true ->
  isInJuliaSet_loop rem i C prevZ currentZ st = (true, st).
Proof.
  induction rem as [|rem IH]; intros i prevZ currentZ st Hnan; [reflexivity|].
  cbn [isInJuliaSet_loop].
  destruct (f_nan currentZ C Hnan) as [Hre Him].
  assert (Hfar : (distanceFromOrigin (f currentZ C) >? lit_two)%dbl = false).
  { unfold distanceFromOrigin; cbn. apply nan_ltb_r, nan_sqrt, nan_add_l.
    now apply nan_mul_l. }
  assert (Hrep : ceq (f currentZ C) prevZ = false).
  { unfold ceq; cbn. fold (creal (f currentZ C)).
    now rewrite (nan_eqb_l _ _ Hre). }
  rewrite Hfar, Hrep. apply IH. now left.
Qed.

(** X6.  A point with a real or imaginary part that is not a number never
    leaves the loop of [isInJuliaSet] early: every distance test and every
    comparison with the previous value fails, so the point is reported as
    in the set, whatever the constant and the bound, and nothing is stored
    through [stageEliminated]. *)
Theorem nan_point_reported_in_set (z C : @complex float) (numIterations : Z)
    (stageEliminated : int_buffer) :
  is_nan (creal z) || is_nan (cimag z) = true ->
  isInJuliaSet z C numIterations stageEliminated = (true, stageEliminated).
Proof.
  intros H. apply orb_prop in H. now apply isInJuliaSet_loop_nan.
Qed.

Lemma nan_point_reported_in_set_witness :
  is_nan (creal (nan, 0%float)) || is_nan (cimag (nan, 0%float)) = true /\
  isInJuliaSet (nan, 0%float) (0.285%float, 0.01%float) 100 {| held := -1; stores := 0 |}
  = (true, {| held := -1; stores := 0 |}).
Proof.
  assert (H : is_nan (creal (nan, 0%float)) || is_nan (cimag (nan, 0%float)) = true)
    by reflexivity.
  exact (conj H (nan_point_reported_in_set (nan, 0%float) (0.285%float, 0.01%float)
                   100 {| held := -1; stores := 0 |} H)).
Defined.

(** X7.  With a plane width or height that is not a number, every pixel of
    the fill gets the colour of the set, whatever the window, the centre,
    the constant and the bound. *)
Theorem nan_plane_all_in_set (centerX centerY planeWidth planeHeight : float)
    (windowWidth windowHeight numIterations : Z) (C : @complex float) (x y : Z) :
  is_nan planeWidth || is_nan planeHeight = true ->
  pixelColor centerX centerY planeWidth planeHeight
    windowWidth windowHeight numIterations C x y = colorInSet.
Proof.
  intros H. unfold pixelColor. cbv zeta.
  unfold isInJuliaSet. rewrite isInJuliaSet_loop_nan; [reflexivity|].
  apply orb_prop in H as [H|H].
  - left. unfold radd, XTransform, creal; cbn.
    now apply nan_add_l, nan_add_l, nan_mul_l.
  - right. unfold radd, rmul, YTransform, cimag; cbn.
    now apply nan_mul_l, nan_add_l, nan_mul_l.
Qed.

Lemma nan_plane_all_in_set_witness :
  is_nan nan || is_nan 3%float = true /\
  pixelColor 0%float 0%float nan 3%float 800 600 100 (0.285%float, 0.01%float) 17 4
  = colorInSet.
Proof.
  assert (H : is_nan nan || is_nan 3%float = true) by reflexivity.
  exact (conj H (nan_plane_all_in_set 0%float 0%float nan 3%float 800 600 100
                   (0.285%float, 0.01%float) 17 4 H)).
Defined.

(** ** The command line *)

Section CommandLineFacts.
Variable strtol : string -> Z.
Variable strtod : string -> float.

(** [getArgs] test by test: too few arguments, then an argument that
    converts to zero without beginning with 0, then a value that must be
    positive and is not; the variables are stored to before the second test,
    [C] after the last. *)
Lemma getArgs_eq (argv : list string) (vars : arguments) :
  getArgs strtol strtod argv vars
  = if (length argv <? 10)%nat then (INSUFFICIENT_ARGS_FAIL, vars)
    else if misread strtol strtod argv
    then (ARG_NOT_A_NUMBER_FAIL, converted strtol strtod argv (arg_C vars))
    else if below_one strtol strtod argv
    then (ARG_BELOW_ONE_FAIL, converted strtol strtod argv (arg_C vars))
    else (GET_ARGS_SUCCEED,
          converted strtol strtod argv
            (radd (strtod (nth 7 argv EmptyString))
               (rmul (strtod (nth 8 argv EmptyString)) Complex_I))).
Proof.
  unfold getArgs.
  destruct (Z.ltb_spec (Z.of_nat (length argv)) 10) as [Hlt|Hge];
    destruct (Nat.ltb_spec (length argv) 10) as [Hlt'|Hge']; try lia;
    [reflexivity|].
  cbv zeta.
  match goal with |- (if ?c then _ else _) = _ =>
    replace c with (misread strtol strtod argv)
  end.
  - destruct (misread strtol strtod argv); [reflexivity|].
    unfold below_one.
    destruct (strtol (nth 1 argv EmptyString) <=? 0),
             (strtol (nth 2 argv EmptyString) <=? 0),
             (strtod (nth 3 argv EmptyString) <=? 0)%float,
             (strtod (nth 4 argv EmptyString) <=? 0)%float,
             (strtol (nth 9 argv EmptyString) <=? 0); reflexivity.
  - unfold misread, zero_without_0. cbn [existsb seq converts_to_zero].
    rewrite orb_false_r, !orb_assoc. reflexivity.
Qed.

Lemma misread_false (argv : list string) (j : nat) :
  misread strtol strtod argv = false -> (1 <= j <= 9)%nat ->
  zero_without_0 strtol strtod argv j = false.
Proof.
  intros H Hj. destruct (zero_without_0 strtol strtod argv j) eqn:E; [|reflexivity].
  rewrite <- H. symmetry. apply existsb_exists. exists j.
  split; [apply in_seq; lia|exact E].
Qed.

Lemma misread_intro (argv : list string) :
  (forall j, (1 <= j <= 9)%nat -> zero_without_0 strtol strtod argv j = false) ->
  misread strtol strtod argv = false.
Proof.
  intros H. destruct (misread strtol strtod argv) eqn:E; [|reflexivity].
  apply existsb_exists in E as [j [Hj E]]. apply in_seq in Hj.
  rewrite H in E by lia. discriminate E.
Qed.

Lemma getArgs_succeeds_iff (argv : list string) (vars : arguments) :
  fst (getArgs strtol strtod argv vars) = GET_ARGS_SUCCEED
  <-> (10 <= length argv)%nat /\ misread strtol strtod argv = false /\
      below_one strtol strtod argv = false.
Proof.
  rewrite getArgs_eq.
  destruct (Nat.ltb_spec (length argv) 10) as [Hlt|Hge],
           (misread strtol strtod argv), (below_one strtol strtod argv); cbn;
    unfold INSUFFICIENT_ARGS_FAIL, ARG_NOT_A_NUMBER_FAIL, ARG_BELOW_ONE_FAIL,
           GET_ARGS_SUCCEED;
    intuition (try lia; try discriminate).
Qed.

Lemma getArgs_succeeds (argv : list string) (vars : arguments) :
  fst (getArgs strtol strtod argv vars) = GET_ARGS_SUCCEED ->
  getArgs strtol strtod argv vars
  = (GET_ARGS_SUCCEED,
     converted strtol strtod argv
       (radd (strtod (nth 7 argv EmptyString))
          (rmul (strtod (nth 8 argv EmptyString)) Complex_I))).
Proof.
  intros H. apply getArgs_succeeds_iff in H as [Hlen [Hm Hb]].
  rewrite getArgs_eq, Hm, Hb.
  now destruct (Nat.ltb_spec (length argv) 10) as [Hlt|Hge]; [lia|].
Qed.

Lemma below_one_false (argv : list string) :
  below_one strtol strtod argv = false ->
  1 <= strtol (nth 1 argv EmptyString) /\ 1 <= strtol (nth 2 argv EmptyString) /\
  (strtod (nth 3 argv EmptyString) <=? 0)%float = false /\
  (strtod (nth 4 argv EmptyString) <=? 0)%float = false /\
  1 <= strtol (nth 9 argv EmptyString).
Proof.
  unfold below_one. intros H.
  repeat (apply orb_false_elim in H as [H ?]).
  repeat match goal with H : (_ <=? _) = false |- _ => apply Z.leb_gt in H end.
  repeat split; first [lia|assumption].
Qed.

(** X8.  The return code of [getArgs]: INSUFFICIENT_ARGS_FAIL exactly when
    the command line has fewer than ten entries; otherwise
    ARG_NOT_A_NUMBER_FAIL exactly when one of the arguments 1 to 9 converts
    to zero without beginning with the character 0; otherwise
    ARG_BELOW_ONE_FAIL exactly when a window dimension, a plane dimension or
    the number of threads compares less than or equal to zero; otherwise
    GET_ARGS_SUCCEED.  The code does not depend on the variables passed. *)
Theorem getArgs_return_code (argv : list string) (vars : arguments) :
  let code := fst (getArgs strtol strtod argv vars) in
  (code = INSUFFICIENT_ARGS_FAIL <-> (length argv < 10)%nat) /\
  (code = ARG_NOT_A_NUMBER_FAIL
   <-> (10 <= length argv)%nat /\ misread strtol strtod argv = true) /\
  (code = ARG_BELOW_ONE_FAIL
   <-> (10 <= length argv)%nat /\ misread strtol strtod argv = false /\
       below_one strtol strtod argv = true) /\
  (code = GET_ARGS_SUCCEED
   <-> (10 <= length argv)%nat /\ misread strtol strtod argv = false /\
       below_one strtol strtod argv = false).
Proof.
  cbv zeta. rewrite getArgs_eq.
  destruct (Nat.ltb_spec (length argv) 10) as [Hlt|Hge],
           (misread strtol strtod argv), (below_one strtol strtod argv); cbn;
    unfold INSUFFICIENT_ARGS_FAIL, ARG_NOT_A_NUMBER_FAIL, ARG_BELOW_ONE_FAIL,
           GET_ARGS_SUCCEED;
    intuition (try lia; try discriminate).
Qed.

(** X9.  What [getArgs] stores: nothing when the command line has fewer
    than ten entries; otherwise the conversions of the arguments 1 to 6 and
    9, also when it rejects the command line, and [C] only when it
    succeeds. *)
Theorem getArgs_stores (argv : list string) (vars : arguments) :
  snd (getArgs strtol strtod argv vars)
  = if (length argv <? 10)%nat then vars
    else converted strtol strtod argv
           (if fst (getArgs strtol strtod argv vars) =? GET_ARGS_SUCCEED
            then radd (strtod (nth 7 argv EmptyString))
                   (rmul (strtod (nth 8 argv EmptyString)) Complex_I)
            else arg_C vars).
Proof.
  rewrite getArgs_eq.
  now destruct (length argv <? 10)%nat,
               (misread strtol strtod argv), (below_one strtol strtod argv).
Qed.

(** X10.  The values [getArgs] lets through: on success the command line
    has at least ten entries, the window dimensions and the number of
    threads are at least 1, and each plane dimension is greater than zero or
    not a number. *)
Theorem getArgs_accepted_values (argv : list string) (vars : arguments) :
  fst (getArgs strtol strtod argv vars) = GET_ARGS_SUCCEED ->
  let accepted := snd (getArgs strtol strtod argv vars) in
  (10 <= length argv)%nat /\
  1 <= arg_windowWidth accepted /\ 1 <= arg_windowHeight accepted /\
  1 <= arg_numberOfThreads accepted /\
  ((0 <? arg_planeWidth accepted)%float = true
   \/ is_nan (arg_planeWidth accepted) = true) /\
  ((0 <? arg_planeHeight accepted)%float = true
   \/ is_nan (arg_planeHeight accepted) = true).
Proof.
  intros H. rewrite (getArgs_succeeds _ _ H). cbn.
  apply getArgs_succeeds_iff in H as [Hlen [_ Hb]].
  apply below_one_false in Hb as [HW [HH [Hpw [Hph Hn]]]].
  repeat split; try assumption; now apply not_leb_zero.
Qed.

Lemma nth_insert_ne (argv : list string) (i j : nat) (s : string) :
  i <> j -> nth j (<[i := s]> argv) EmptyString = nth j argv EmptyString.
Proof. intros H. now rewrite !nth_lookup, list_lookup_insert_ne. Qed.

Lemma nth_insert_eq (argv : list string) (i : nat) (s : string) :
  (i < length argv)%nat -> nth i (<[i := s]> argv) EmptyString = s.
Proof. intros H. now rewrite nth_lookup, list_lookup_insert_eq. Qed.

(** X11.  The text of a number is not checked: in an accepted command line
    any of the arguments 3 to 8 (the plane dimensions, the centre and the
    constant) can be replaced by a text that [strtod] converts to
    not-a-number, and [getArgs] still succeeds. *)
Theorem getArgs_accepts_nan (argv : list string) (vars : arguments)
    (i : nat) (s : string) :
  (3 <= i <= 8)%nat -> is_nan (strtod s) = true ->
  fst (getArgs strtol strtod argv vars) = GET_ARGS_SUCCEED ->
  fst (getArgs strtol strtod (<[i := s]> argv) vars) = GET_ARGS_SUCCEED.
Proof.
  intros Hi Hnan H. apply getArgs_succeeds_iff in H as [Hlen [Hm Hb]].
  apply getArgs_succeeds_iff. rewrite length_insert.
  split; [assumption|split].
  - apply misread_intro. intros j Hj. destruct (Nat.eq_dec i j) as [<-|Hne].
    + unfold zero_without_0.
      replace (converts_to_zero strtol strtod (<[i := s]> argv) i) with false;
        [reflexivity|].
      assert (Hz : (strtod (nth i (<[i := s]> argv) EmptyString) =? 0)%float = false)
        by (rewrite nth_insert_eq by lia; now apply nan_eqb_l).
      destruct i as [|[|[|[|[|[|[|[|[|i]]]]]]]]]; try lia; cbn; now rewrite Hz.
    + rewrite <- (misread_false argv j Hm Hj).
      unfold zero_without_0, converts_to_zero.
      now rewrite !nth_insert_ne by assumption.
  - apply below_one_false in Hb as [HW [HH [Hpw [Hph Hn]]]].
    unfold below_one.
    rewrite !(nth_insert_ne argv i 1), !(nth_insert_ne argv i 2),
            !(nth_insert_ne argv i 9) by lia.
    replace (strtol (nth 1 argv EmptyString) <=? 0) with false by lia.
    replace (strtol (nth 2 argv EmptyString) <=? 0) with false by lia.
    replace (strtol (nth 9 argv EmptyString) <=? 0) with false by lia.
    assert (H3 : (strtod (nth 3 (<[i := s]> argv) EmptyString) <=? 0)%float = false).
    { destruct (Nat.eq_dec i 3%nat) as [->|Hne].
      - rewrite nth_insert_eq by lia. now apply nan_leb_l.
      - now rewrite nth_insert_ne. }
    assert (H4 : (strtod (nth 4 (<[i := s]> argv) EmptyString) <=? 0)%float = false).
    { destruct (Nat.eq_dec i 4%nat) as [->|Hne].
      - rewrite nth_insert_eq by lia. now apply nan_leb_l.
      - now rewrite nth_insert_ne. }
    now rewrite H3, H4.
Qed.

End CommandLineFacts.

Lemma getArgs_accepted_values_witness :
  fst (getArgs example_strtol example_strtod example_argv example_vars)
  = GET_ARGS_SUCCEED /\
  (10 <= length example_argv)%nat /\
  1 <= arg_windowWidth
         (snd (getArgs example_strtol example_strtod example_argv example_vars)) /\
  1 <= arg_windowHeight
         (snd (getArgs example_strtol example_strtod example_argv example_vars)) /\
  1 <= arg_numberOfThreads
         (snd (getArgs example_strtol example_strtod example_argv example_vars)) /\
  ((0 <? arg_planeWidth
           (snd (getArgs example_strtol example_strtod example_argv example_vars)))%float
   = true
   \/ is_nan (arg_planeWidth
                (snd (getArgs example_strtol example_strtod example_argv example_vars)))
      = true) /\
  ((0 <? arg_planeHeight
           (snd (getArgs example_strtol example_strtod example_argv example_vars)))%float
   = true
   \/ is_nan (arg_planeHeight
                (snd (getArgs example_strtol example_strtod example_argv example_vars)))
      = true).
Proof.
  assert (H : fst (getArgs example_strtol example_strtod example_argv example_vars)
              = GET_ARGS_SUCCEED) by (vm_compute; reflexivity).
  exact (conj H (getArgs_accepted_values example_strtol example_strtod
                   example_argv example_vars H)).
Defined.

Lemma getArgs_accepts_nan_witness :
  (3 <= 3 <= 8)%nat /\
  is_nan (example_strtod "nan") = true /\
  fst (getArgs example_strtol example_strtod example_argv example_vars)
  = GET_ARGS_SUCCEED /\
  fst (getArgs example_strtol example_strtod (<[3%nat := "nan"%string]> example_argv)
         example_vars)
  = GET_ARGS_SUCCEED.
Proof.
  assert (Hi : (3 <= 3 <= 8)%nat) by lia.
  assert (Hnan : is_nan (example_strtod "nan") = true) by (vm_compute; reflexivity).
  assert (H : fst (getArgs example_strtol example_strtod example_argv example_vars)
              = GET_ARGS_SUCCEED) by (vm_compute; reflexivity).
  exact (conj Hi (conj Hnan (conj H
           (getArgs_accepts_nan example_strtol example_strtod example_argv
              example_vars 3%nat "nan"%string Hi Hnan H)))).
Defined.

(** ** The window of the plane *)



(** ** Waiting for the window to close *)

(** X13.  [waitForClose] stops at the first call of [SDL_WaitEvent] that
    returns 0 or delivers an event of type SDL_QUIT and takes no further
    event; it returns 1 when that call returned 0, whatever the type left in
    the event, and 0 otherwise.  It does not return while every call
    succeeds with an event of another type. *)
Theorem waitForClose_stops_at_first (events : list wait) :
  match waitForClose events with
  | None => forallb passed_over events = true
  | Some (result, rest) =>
      exists before e,
        events = before ++ e :: rest /\
        forallb passed_over before = true /\ passed_over e = false /\
        result = if returned e =? 0 then 1 else 0
  end.
Proof.
  induction events as [|e events IH]; [reflexivity|].
  cbn [waitForClose forallb].
  destruct (returned e =? 0) eqn:Hr.
  - exists [], e. unfold passed_over. now rewrite Hr.
  - destruct (event_type e =? SDL_QUIT) eqn:Ht; cbn [negb].
    + exists [], e. unfold passed_over. now rewrite Hr, Ht.
    + assert (Hp : passed_over e = true)
        by (unfold passed_over; now rewrite Hr, Ht).
      rewrite Hp.
      destruct (waitForClose events) as [[result rest]|]; [|exact IH].
      destruct IH as [before [e' [-> [Hb [He Hres]]]]].
      exists (e :: before), e'. cbn [forallb]. now rewrite Hp.
Qed.

(** ** Drawing the colour map *)

Lemma foldl_app_bind {A B : Type} (h : A -> list B) (l : list A) : forall s,
  foldl (fun s x => s ++ h x) s l = s ++ (x ← l; h x).
Proof.
  induction l as [|x l IH]; intros s; cbn.
  - now rewrite app_nil_r.
  - now rewrite IH, <- app_assoc.
Qed.

Lemma length_bind_const {A B : Type} (h : A -> list B) (n : nat) (l : list A) :
  (forall x, length (h x) = n) -> length (x ← l; h x) = (n * length l)%nat.
Proof.
  intros Hn. induction l as [|x l IH]; cbn; [lia|].
  rewrite length_app, Hn, IH. lia.
Qed.

(** With a window within the range of [int], enough fuel and every cell of
    the grid stored to, [drawJuliaSet] makes the calls of the picture of the
    colour map. *)
Lemma drawJuliaSet_grid (fuel : nat) (colorMap : gmap (Z * Z) SDL_Color)
    (color : Z -> Z -> SDL_Color) (windowWidth windowHeight : Z) :
  windowWidth <= INT_MAX -> windowHeight <= INT_MAX ->
  (Z.to_nat windowWidth < fuel)%nat -> (Z.to_nat windowHeight < fuel)%nat ->
  (forall x y, 0 <= x < windowWidth -> 0 <= y < windowHeight ->
               colorMap !! (x, y) = Some (color x y)) ->
  drawJuliaSet fuel colorMap windowWidth windowHeight
  = Some (picture color windowWidth windowHeight).
Proof.
  intros HWmax HHmax HW HH Hmap. unfold drawJuliaSet, picture.
  set (pixel := fun x y : Z =>
         [SDL_SetRenderDrawColor (SDL.r (color x y)) (SDL.g (color x y))
            (SDL.b (color x y)) (SDL.a (color x y));
          SDL_RenderDrawRect x y 2 2]).
  rewrite (for_lt_total
             (fun x s => s ++ (y ← seqZ 0 windowHeight; pixel x y)));
    [| lia | lia | unfold INT_MIN; lia | now rewrite Z.sub_0_r |].
  - rewrite counter_values_seqZ, foldl_app_bind. now rewrite <- app_assoc.
  - intros x s Hx.
    rewrite (for_lt_total (fun y s => s ++ pixel x y));
      [| lia | lia | unfold INT_MIN; lia | now rewrite Z.sub_0_r |].
    + now rewrite counter_values_seqZ, foldl_app_bind.
    + intros y s' Hy. unfold draw_pixel. now rewrite Hmap.
Qed.

(** [drawJuliaSet] reads every cell of the grid. *)
Lemma drawJuliaSet_unset (fuel : nat) (colorMap : gmap (Z * Z) SDL_Color)
    (windowWidth windowHeight x y : Z) :
  0 <= x < windowWidth -> 0 <= y < windowHeight -> colorMap !! (x, y) = None ->
  drawJuliaSet fuel colorMap windowWidth windowHeight = None.
Proof.
  intros Hx Hy Hnone. unfold drawJuliaSet.
  rewrite (for_lt_fails _ 1 windowWidth x); [reflexivity | lia | |].
  - intros s. apply (for_lt_fails _ 1 windowHeight y); [lia | |].
    + intros s'. unfold draw_pixel. now rewrite Hnone.
    + rewrite counter_values_seqZ, elem_of_seqZ. lia.
  - rewrite counter_values_seqZ, elem_of_seqZ. lia.
Qed.

(** X14.  For a window whose width and height lie within the range of
    [int] (the counters of the loops are ints), and given enough fuel,
    [drawJuliaSet] on a colour map that holds a colour in every cell of the
    grid clears the window, then
    for each pixel, column by column and from the top down, sets the colour
    of its cell and draws a rectangle of 2 by 2 at the pixel, and at last
    presents: 3 + 2 * windowWidth * windowHeight calls on the renderer.  On
    a colour map with a cell of the grid never stored to it has no defined
    outcome. *)
Theorem drawJuliaSet_calls (fuel : nat) (colorMap : gmap (Z * Z) SDL_Color)
    (windowWidth windowHeight : Z) :
  windowWidth <= INT_MAX -> windowHeight <= INT_MAX ->
  (Z.to_nat windowWidth < fuel)%nat -> (Z.to_nat windowHeight < fuel)%nat ->
  (forall color : Z -> Z -> SDL_Color,
     (forall x y, 0 <= x < windowWidth -> 0 <= y < windowHeight ->
                  colorMap !! (x, y) = Some (color x y)) ->
     drawJuliaSet fuel colorMap windowWidth windowHeight
     = Some (picture color windowWidth windowHeight) /\
     length (picture color windowWidth windowHeight)
     = (3 + 2 * (Z.to_nat windowWidth * Z.to_nat windowHeight))%nat) /\
  (forall x y, 0 <= x < windowWidth -> 0 <= y < windowHeight ->
               colorMap !! (x, y) = None ->
               drawJuliaSet fuel colorMap windowWidth windowHeight = None).
Proof.
  intros HWmax HHmax HW HH. split.
  - intros color Hmap. split; [now apply drawJuliaSet_grid|].
    unfold picture. rewrite !length_app.
    rewrite (length_bind_const _ (2 * Z.to_nat windowHeight) (seqZ 0 windowWidth)).
    + rewrite length_seqZ. cbn [length]. lia.
    + intros x. rewrite (length_bind_const _ 2 (seqZ 0 windowHeight));
        [now rewrite length_seqZ|reflexivity].
  - intros x y. now apply drawJuliaSet_unset.
Qed.

Lemma drawJuliaSet_calls_witness :
  2 <= INT_MAX /\ 1 <= INT_MAX /\ (Z.to_nat 2 < 3)%nat /\ (Z.to_nat 1 < 3)%nat /\
  (forall color : Z -> Z -> SDL_Color,
     (forall x y, 0 <= x < 2 -> 0 <= y < 1 ->
                  ({[ (0, 0) := colorInSet; (1, 0) := colorOutOfSet 7 ]}
                     : gmap (Z * Z) SDL_Color) !! (x, y) = Some (color x y)) ->
     drawJuliaSet 3 {[ (0, 0) := colorInSet; (1, 0) := colorOutOfSet 7 ]} 2 1
     = Some (picture color 2 1) /\
     length (picture color 2 1) = (3 + 2 * (Z.to_nat 2 * Z.to_nat 1))%nat) /\
  (forall x y, 0 <= x < 2 -> 0 <= y < 1 ->
               ({[ (0, 0) := colorInSet; (1, 0) := colorOutOfSet 7 ]}
                  : gmap (Z * Z) SDL_Color) !! (x, y) = None ->
               drawJuliaSet 3 {[ (0, 0) := colorInSet; (1, 0) := colorOutOfSet 7 ]} 2 1
               = None).
Proof.
  assert (HWmax : 2 <= INT_MAX) by (unfold INT_MAX; lia).
  assert (HHmax : 1 <= INT_MAX) by (unfold INT_MAX; lia).
  assert (HW : (Z.to_nat 2 < 3)%nat) by (cbn; lia).
  assert (HH : (Z.to_nat 1 < 3)%nat) by (cbn; lia).
  exact (conj HWmax (conj HHmax (conj HW (conj HH
           (drawJuliaSet_calls 3 {[ (0, 0) := colorInSet; (1, 0) := colorOutOfSet 7 ]}
              2 1 HWmax HHmax HW HH))))).
Defined.

(** ** The program *)


(** Every interleaving is the outcome of some picks. *)
Lemma interleaving_scheduled (threads : list (list write)) (out : list write) :
  interleaving threads out -> exists order, scheduled order threads = out.
Proof.
  induction 1 as [threads Hnil|threads i a t out Hi _ [order IH]].
  - exists []. cbn. now apply concat_all_nil.
  - exists (i :: order). cbn [scheduled]. now rewrite Hi, IH.
Qed.

Section ProgramFacts.
Variable strtol : string -> Z.
Variable strtod : string -> float.

(** X15.  On a command line that [getArgs] rejects, [main] exits with the
    code of [getArgs] before it starts a thread or makes a call on a
    renderer, whatever its surroundings. *)
Theorem main_rejected (fuel : nat) (argv : list string) (vars : arguments)
    (env : surroundings) :
  fst (getArgs strtol strtod argv vars) <> GET_ARGS_SUCCEED ->
  main strtol strtod fuel argv vars env
  = Some (fst (getArgs strtol strtod argv vars), []).
Proof.
  intros H. unfold main.
  destruct (getArgs strtol strtod argv vars) as [result vars'].
  cbn [fst] in *. unfold GET_ARGS_SUCCEED in H.
  destruct (Z.eqb_spec result 0) as [->|_]; [now destruct H|reflexivity].
Qed.


End ProgramFacts.

Lemma main_rejected_witness :
  fst (getArgs example_strtol example_strtod ["Project04_01"; "800"]%string example_vars)
  <> GET_ARGS_SUCCEED /\
  main example_strtol example_strtod 0 ["Project04_01"; "800"]%string example_vars
    example_surroundings
  = Some (fst (getArgs example_strtol example_strtod ["Project04_01"; "800"]%string
                 example_vars), []).
Proof.
  assert (H : fst (getArgs example_strtol example_strtod
                     ["Project04_01"; "800"]%string example_vars)
              <> GET_ARGS_SUCCEED) by (vm_compute; discriminate).
  exact (conj H (main_rejected example_strtol example_strtod 0
                   ["Project04_01"; "800"]%string example_vars example_surroundings H)).
Defined.

